(** * ui-mineria-ud2: the student-score PCA script (main.py)

    A shallow embedding of the script's data pipeline:

      Loader      glob / read_csv / pd.concat                  (lines 16-21)
      Cleaner     abs, groupby-mean, dropna, median fillna      (lines 27-49)
      Normalizer  StandardScaler().fit_transform                (lines 53-57)
      Reducer     PCA(n_components=k).fit_transform, k = None, 2, 1
      Reporter    explained variance, cumulative sum, top 3     (lines 66-145)

    The script is a straight line of pandas / scikit-learn calls; every
    definition below is the documented behaviour of the call it is named
    after, on the data the script hands to it.

    Numbers.  A numeric column of [read_csv] is either [int64] or [float64].
    An [int64] cell is a [Z] with the two's-complement wrap-around of numpy
    written out, and its cast to float64 rounds it to 53 bits.  A finite
    [float64] value is a rational ([Q]) and the missing value is [NaN].
    The arithmetic on floats is exact: the rounding of a sum, a quotient
    or a square root and the infinities are outside the model, and what is
    proved of a computed float holds of the real run up to that rounding.
    After the groupby-mean every numeric cell is a float, written
    [option Q] with [None] for NaN.  Arithmetic results on [Q] are
    compared with [==] ([Qeq]).

    Identifiers.  The [alumno] and [grupo] columns hold text (dtype
    object), as in the data the script was written for.  A file whose
    identifiers are numbers is outside the model: line 27 would count
    such a column among the numeric columns, and line 46 would fail on
    its median. *)

From Stdlib Require Import ZArith QArith Qabs List String Bool Lia Lqa.
From Stdlib Require Import Sorting.Permutation Sorting.Sorted.
Import ListNotations.
Open Scope string_scope.
Open Scope Q_scope.

(** ** Exceptions

    The script has no [try]: an exception raised by any call ends the
    process.  A computation that may raise is a value of [result]. *)

Inductive exn : Type :=
| ValueError (msg : string).

Inductive result (A : Type) : Type :=
| Ok (a : A)
| Raise (e : exn).
Arguments Ok {A} a.
Arguments Raise {A} e.

Definition bind {A B : Type} (c : result A) (k : A -> result B) : result B :=
  match c with
  | Ok a => k a
  | Raise e => Raise e
  end.

Notation "x <- c ;; k" := (bind c (fun x => k))
  (at level 61, c at next level, right associativity).

(** ** Numeric cells *)

Module Int64.

Definition min_value : Z := - 2 ^ 63.
Definition max_value : Z := 2 ^ 63 - 1.
Definition modulus : Z := 2 ^ 64.

Definition in_range (z : Z) : bool :=
  (min_value <=? z)%Z && (z <=? max_value)%Z.

(** The value a 64-bit two's-complement register holds for [z]. *)
Definition wrap (z : Z) : Z :=
  ((z - min_value) mod modulus + min_value)%Z.

(** [np.abs] on an int64 array: the absolute value, wrapped. *)
Definition abs (z : Z) : Z := wrap (Z.abs z).

End Int64.

(** A cell of a numeric column of the combined table. *)
Inductive num : Type :=
| I64 (z : Z)      (* a cell of an int64 column *)
| F64 (q : Q)      (* a finite cell of a float64 column *)
| NaN.             (* a missing cell (float64 NaN) *)

(** A float cell: [None] is NaN. *)
Definition cell : Type := option Q.

(** [Series.abs()], cell by cell. *)
Definition np_abs (c : num) : num :=
  match c with
  | I64 z => I64 (Int64.abs z)
  | F64 q => F64 (Qabs q)
  | NaN => NaN
  end.

Module Float64.

(** The float64 nearest to a natural number: the 53 leading bits are
    kept, the rest is rounded to nearest, ties to even.  A number below
    2^53 is kept as it is. *)
Definition round_nat (n : Z) : Z :=
  let e := (Z.log2 n - 52)%Z in
  if (e <=? 0)%Z then n
  else
    let q := (n / 2 ^ e)%Z in
    let r := (n mod 2 ^ e)%Z in
    let half := (2 ^ (e - 1))%Z in
    let q' := if (half <? r)%Z || ((r =? half)%Z && Z.odd q)
              then (q + 1)%Z else q in
    (q' * 2 ^ e)%Z.

(** The cast of an int64 to float64. *)
Definition of_int (z : Z) : Z := (Z.sgn z * round_nat (Z.abs z))%Z.

End Float64.

(** The cast to float64 that [mean] applies to its input: an int64 is
    rounded to the nearest float64. *)
Definition as_float (c : num) : cell :=
  match c with
  | I64 z => Some (inject_Z (Float64.of_int z))
  | F64 q => Some q
  | NaN => None
  end.

Definition num_ok (c : num) : bool :=
  match c with
  | I64 z => Int64.in_range z
  | _ => true
  end.

(** ** Tables

    A raw record is one row of a CSV file: the two identifier columns,
    as text (a missing identifier is [None]), and the numeric columns, in
    the order of [numeric_columns]. *)

Record RawRecord : Type := mkRaw {
  raw_alumno : option string;
  raw_grupo : option string;
  raw_values : list num
}.

Record DataFrame : Type := mkDF {
  numeric_columns : list string;
  records : list RawRecord
}.

Definition record_ok (r : RawRecord) : bool := forallb num_ok (raw_values r).
Definition frame_ok (df : DataFrame) : bool := forallb record_ok (records df).

(** One row of the table after [groupby(['alumno','grupo']).mean().reset_index()]. *)
Record Row : Type := mkRow {
  alumno : string;
  grupo : string;
  values : list cell
}.

(** ** Loader (lines 16-21) *)

(** [seq]-indexed map over the cells of a row. *)
Definition mapi {A B : Type} (f : nat -> A -> B) (l : list A) : list B :=
  map (fun p => f (fst p) (snd p)) (combine (seq 0 (List.length l)) l).

(** The header of the combined table: [pd.concat] takes the union of the
    files' headers, each name where it first appears. *)
Definition add_column (acc : list string) (c : string) : list string :=
  if existsb (String.eqb c) acc then acc else acc ++ [c].

Definition union_columns (dataframes : list DataFrame) : list string :=
  fold_left add_column (flat_map numeric_columns dataframes) [].

(** The cell of a record under the column named [c]; NaN when the
    record's file has no such column, or the line was too short. *)
Fixpoint cell_of (columns : list string) (vals : list num) (c : string) : num :=
  match columns, vals with
  | c' :: columns', v :: vals' =>
      if String.eqb c' c then v else cell_of columns' vals' c
  | _, _ => NaN
  end.

(** A record of the table [df], laid out under the header [columns]. *)
Definition reindex (columns : list string) (df : DataFrame) (r : RawRecord)
  : RawRecord :=
  mkRaw (raw_alumno r) (raw_grupo r)
        (map (cell_of (numeric_columns df) (raw_values r)) columns).

Definition is_int64 (c : num) : bool :=
  match c with I64 _ => true | _ => false end.

(** [astype(float64)] on one cell. *)
Definition astype_float (c : num) : num :=
  match c with
  | I64 z => F64 (inject_Z (Float64.of_int z))
  | _ => c
  end.

(** A column of the combined table is int64 only when every one of its
    cells is; otherwise the column is float64 and its integers are cast. *)
Definition int64_column (j : nat) (rs : list RawRecord) : bool :=
  forallb (fun r => is_int64 (nth j (raw_values r) NaN)) rs.

Definition common_dtype (rs : list RawRecord) : list RawRecord :=
  map (fun r =>
         mkRaw (raw_alumno r) (raw_grupo r)
               (mapi (fun j c => if int64_column j rs then c else astype_float c)
                     (raw_values r)))
      rs.

(** [pd.concat(dataframes.values(), ignore_index=True)]: the rows are
    appended in file order and aligned by column name; a column that a
    file does not have is NaN in that file's rows.  With no table to
    concatenate pandas raises ValueError. *)
Definition pd_concat (dataframes : list DataFrame) : result DataFrame :=
  match dataframes with
  | [] => Raise (ValueError "No objects to concatenate")
  | _ =>
      let columns := union_columns dataframes in
      Ok (mkDF columns
               (common_dtype
                  (flat_map (fun df => map (reindex columns df) (records df))
                            dataframes)))
  end.

(** ** Cleaner (lines 27-49) *)

(** Lines 27-28: [combined_df[numeric_columns] = combined_df[numeric_columns].abs()]. *)
Definition abs_record (r : RawRecord) : RawRecord :=
  mkRaw (raw_alumno r) (raw_grupo r) (map np_abs (raw_values r)).

Definition sign_correct (df : DataFrame) : DataFrame :=
  mkDF (numeric_columns df) (map abs_record (records df)).

(** *** Sorting and small list helpers *)

Section InsertionSort.
Context {A : Type}.
Variable leb : A -> A -> bool.

Fixpoint insert (x : A) (l : list A) : list A :=
  match l with
  | [] => [x]
  | y :: l' => if leb x y then x :: l else y :: insert x l'
  end.

(** A stable sort: equal keys keep their input order. *)
Fixpoint isort (l : list A) : list A :=
  match l with
  | [] => []
  | x :: l' => insert x (isort l')
  end.
End InsertionSort.

Definition sumQ (l : list Q) : Q := fold_right Qplus 0 l.

Definition count (l : list Q) : Q := inject_Z (Z.of_nat (List.length l)).

(** The cells of a column that are not NaN. *)
Definition valid (l : list cell) : list Q :=
  flat_map (fun c => match c with Some q => [q] | None => [] end) l.

Definition is_defined (c : cell) : bool :=
  match c with Some _ => true | None => false end.

(** Float division: a zero divisor gives NaN or an infinity, both outside
    the finite values. *)
Definition fdiv (x y : Q) : cell :=
  if Qeq_bool y 0 then None else Some (x / y).

(** [mean()] with the default [skipna=True]: the mean of the valid cells,
    NaN when there is none. *)
Definition nanmean (l : list cell) : cell :=
  match valid l with
  | [] => None
  | v => Some (sumQ v / count v)
  end.

(** [median()] with the default [skipna=True]: the middle valid value, or
    the mean of the two middle ones; NaN when there is none. *)
Definition median (l : list cell) : cell :=
  let v := isort Qle_bool (valid l) in
  let n := List.length v in
  match n with
  | O => None
  | _ =>
      if Nat.even n
      then Some ((nth (n / 2 - 1) v 0 + nth (n / 2) v 0) / 2)
      else Some (nth (n / 2) v 0)
  end.

(** *** Lines 33-37: the category casts and the groupby-mean *)

Definition non_null (keys : list (option string)) : list string :=
  flat_map (fun k => match k with Some s => [s] | None => [] end) keys.

(** [astype('category')]: the categories are the distinct non-null values,
    in sorted order. *)
Definition categories (keys : list (option string)) : list string :=
  isort String.leb (nodup string_dec (non_null keys)).

(** The records of one (alumno, grupo) pair.  [groupby] leaves out a record
    with a missing key (the default [dropna=True]). *)
Definition in_group (a g : string) (r : RawRecord) : bool :=
  match raw_alumno r, raw_grupo r with
  | Some a', Some g' => String.eqb a' a && String.eqb g' g
  | _, _ => false
  end.

Definition group_records (df : DataFrame) (a g : string) : list RawRecord :=
  filter (in_group a g) (records df).

(** Column [j] of a list of raw records, as the floats [mean] works on. *)
Definition raw_column (j : nat) (rs : list RawRecord) : list cell :=
  map (fun r => as_float (nth j (raw_values r) NaN)) rs.

Definition mean_row (df : DataFrame) (a g : string) : Row :=
  mkRow a g
    (map (fun j => nanmean (raw_column j (group_records df a g)))
         (seq 0 (List.length (numeric_columns df)))).

(** [df.groupby(['alumno', 'grupo']).mean().reset_index()] on categorical
    keys: one row per pair of categories, alumno-major, in category order.
    A pair that never occurs in the data gets a row of NaN: these are the
    "NaN values generated by the groupby operation" of line 38. *)
Definition groupby_mean (df : DataFrame) : list Row :=
  flat_map
    (fun a => map (mean_row df a) (categories (map raw_grupo (records df))))
    (categories (map raw_alumno (records df))).

(** *** Line 39: dropna *)

Definition complete (r : Row) : bool := forallb is_defined (values r).

(** [df.dropna().reset_index(drop=True)]: keep the rows without NaN. *)
Definition dropna (df : list Row) : list Row := filter complete df.

(** *** Lines 46-49: group-median imputation *)

Definition frame_column (j : nat) (df : list Row) : list cell :=
  map (fun r => nth j (values r) None) df.

(** The rows of one [grupo] partition. *)
Definition partition_of (g : string) (df : list Row) : list Row :=
  filter (fun r => String.eqb (grupo r) g) df.

(** [x.fillna(v)] / [df.fillna(other)] on one cell. *)
Definition fillna_cell (c : cell) (v : cell) : cell :=
  match c with
  | Some q => Some q
  | None => v
  end.

(** The per-group results of line 46 put back in the order of [df]: in
    each row, a NaN cell gets the median of its column over the row's own
    [grupo] partition (the lambda's [x.fillna(x.median())], [x] being a
    column of one partition). *)
Definition transformed (df : list Row) : list (list cell) :=
  map (fun r =>
         mapi (fun j c =>
                 fillna_cell c (median (frame_column j (partition_of (grupo r) df))))
              (values r))
      df.

(** Whether some group of the table has a cell ([group.size > 0]). *)
Definition has_cells (df : list Row) : bool :=
  existsb (fun r => match values r with [] => false | _ => true end) df.

(** Line 46:
    [medians = df.groupby('grupo')[numeric_columns].transform(lambda x: x.fillna(x.median()))].
    [transform] applies the lambda group by group, skips the groups
    without cells, and concatenates the results with [concat]; when no
    group has a cell there is nothing to concatenate and [concat] raises,
    as in the Loader.  Every column of [numeric_columns] is a float column
    here: the identifiers hold text and are not among them. *)
Definition medians (df : list Row) : result (list (list cell)) :=
  if has_cells df
  then Ok (transformed df)
  else Raise (ValueError "No objects to concatenate").

(** Line 49: [df[numeric_columns] = df[numeric_columns].fillna(medians)]. *)
Definition fillna (df : list Row) (other : list (list cell)) : list Row :=
  map (fun p =>
         mkRow (alumno (fst p)) (grupo (fst p))
               (map (fun q => fillna_cell (fst q) (snd q))
                    (combine (values (fst p)) (snd p))))
      (combine df other).

(** Lines 46-49. *)
Definition impute (df : list Row) : result (list Row) :=
  other <- medians df ;;
  Ok (fillna df other).

(** Lines 18-39: from the loaded files to the table after the row drop. *)
Definition aggregate (dataframes : list DataFrame) : result (list Row) :=
  combined_df <- pd_concat dataframes ;;
  Ok (dropna (groupby_mean (sign_correct combined_df))).

(** The numeric cell of the aggregated row of the pair (a, g), column [j]
    (before the row drop). *)
Definition lookup (df : list Row) (a g : string) : option Row :=
  find (fun r => String.eqb (alumno r) a && String.eqb (grupo r) g) df.

Definition aggregated_value (df : DataFrame) (a g : string) (j : nat) : cell :=
  match lookup (groupby_mean (sign_correct df)) a g with
  | Some r => nth j (values r) None
  | None => None
  end.

(** ** Normalizer, Reducer, Reporter (lines 53-145) *)

Definition matrix : Type := list (list Q).

(** Column [j] of a matrix of float cells given by rows. *)
Definition column (j : nat) (X : list (list cell)) : list cell :=
  map (fun r => nth j r None) X.

(** Float addition: NaN propagates. *)
Definition fadd (x y : cell) : cell :=
  match x, y with
  | Some a, Some b => Some (a + b)
  | _, _ => None
  end.

(** [np.sum]: no NaN is skipped. *)
Definition npsum (l : list cell) : cell := fold_right fadd (Some 0) l.

(** [ndarray.cumsum()]: the running sums. *)
Fixpoint cumsum_from (acc : cell) (l : list cell) : list cell :=
  match l with
  | [] => []
  | c :: l' => fadd acc c :: cumsum_from (fadd acc c) l'
  end.

Definition cumsum (l : list cell) : list cell := cumsum_from (Some 0) l.

(** The variance [StandardScaler] fits: the mean squared deviation over the
    valid cells (population variance). *)
Definition nanvar (l : list cell) : cell :=
  match nanmean l with
  | None => None
  | Some m => nanmean (map (option_map (fun x => (x - m) * (x - m))) l)
  end.

(** The matrix of an input without NaN; [None] when a cell is NaN. *)
Fixpoint finite_row (r : list cell) : option (list Q) :=
  match r with
  | [] => Some []
  | None :: _ => None
  | Some q :: r' => option_map (cons q) (finite_row r')
  end.

Fixpoint all_finite (X : list (list cell)) : option matrix :=
  match X with
  | [] => Some []
  | r :: X' =>
      match finite_row r, all_finite X' with
      | Some r', Some M => Some (r' :: M)
      | _, _ => None
      end
  end.

Definition qcolumn (j : nat) (M : matrix) : list Q := map (fun r => nth j r 0) M.

(** [X -= np.mean(X, axis=0)]. *)
Definition center (M : matrix) : matrix :=
  map (fun r => mapi (fun j x => x - sumQ (qcolumn j M) / count (qcolumn j M)) r) M.

(** What a fitted [PCA] object holds. *)
Record PCA : Type := mkPCA {
  n_components_ : nat;
  components_ : matrix;
  explained_variance_ : list cell;
  explained_variance_ratio_ : list cell
}.

(** The part of [PCA._fit_full] and [fit_transform] after the decomposition
    [U, S, Vt] of the centered data ([Sigma] is sklearn's [S]): the
    variances [S**2 / (n_samples - 1)], their ratios to the total, the
    first [k] rows of [Vt], and the projection [U[:, :k] * S[:k]]. *)
Definition pca_postprocess (k n_samples : nat)
    (usv : matrix * list Q * matrix) : PCA * matrix :=
  let '(U, Sigma, Vt) := usv in
  let explained_variance :=
    map (fun s => fdiv (s * s) (inject_Z (Z.of_nat n_samples) - 1)) Sigma in
  let total_var := npsum explained_variance in
  let ratio :=
    map (fun ev => match ev, total_var with
                   | Some e, Some t => fdiv e t
                   | _, _ => None
                   end) explained_variance in
  (mkPCA k (firstn k Vt) (firstn k explained_variance) (firstn k ratio),
   map (fun u => map (fun p => fst p * snd p) (combine (firstn k u) (firstn k Sigma))) U).

(** [df.sort_values(by=..., ascending=False)] on a column without NaN:
    pandas reverses the rows, sorts them in ascending order and reverses
    the result.  The default sort kind promises no order for equal scores;
    the model keeps them in table order, as a stable kind does.  What is
    proved of the ranking holds for every order of equal scores. *)
Definition score_leb (x y : string * Q) : bool := Qle_bool (snd x) (snd y).

Definition sort_values_desc (df : list (string * Q)) : list (string * Q) :=
  rev (isort score_leb (rev df)).

(** Lines 133-141: the table of (alumno, first component), sorted by
    descending score; [head(3)]. *)
Definition top_students (alumnos : list string) (first_principal_component : matrix)
    : list (string * Q) :=
  firstn 3 (sort_values_desc (combine alumnos (List.concat first_principal_component))).

(** What the script logs. *)
Record Report : Type := mkReport {
  eigenvectors : matrix;
  eigenvalues : list cell;
  explained_variance : list cell;
  cumulative_variance : list cell;
  explained_variance_2 : list cell;
  cumulative_variance_2 : list cell;
  top3 : list (string * Q)
}.

Section Analysis.

(** The two numerical primitives the script reaches through the
    libraries: the square root of [StandardScaler], and the singular
    value decomposition [U, S, Vt] of [PCA] ([linalg.svd] with
    [full_matrices=False], followed by [svd_flip]). *)
Variable np_sqrt : Q -> Q.
Variable linalg_svd : matrix -> matrix * list Q * matrix.

(** [_handle_zeros_in_scale]: the scale of a column is the square root of
    its variance, and 1 for a column of zero variance. *)
Definition scale_of (var : cell) : cell :=
  match var with
  | None => None
  | Some v => if Qeq_bool v 0 then Some 1 else Some (np_sqrt v)
  end.

Definition standardize_cell (x mean scale : cell) : cell :=
  match x, mean, scale with
  | Some x, Some m, Some s => fdiv (x - m) s
  | _, _, _ => None
  end.

(** [StandardScaler().fit_transform(numerical_data)]: each cell minus the
    mean of its column, divided by the column's scale; the mean and the
    variance are exact here, the square root is the one given. *)
Definition scaler_fit_transform (X : list (list cell)) : result (list (list cell)) :=
  match X with
  | [] => Raise (ValueError "Found array with 0 sample(s)")
  | [] :: _ => Raise (ValueError "Found array with 0 feature(s)")
  | _ =>
      Ok (map (fun row =>
                 mapi (fun j x =>
                         standardize_cell x (nanmean (column j X))
                                          (scale_of (nanvar (column j X))))
                      row)
              X)
  end.

(** [PCA(n_components=k).fit_transform(X)] with the full SVD solver.
    [n_components=None] keeps [min(n_samples, n_features)] components; a
    requested rank above that bound is refused. *)
Definition pca_fit_transform (n_components : option nat) (X : list (list cell))
    : result (PCA * matrix) :=
  match X with
  | [] => Raise (ValueError "Found array with 0 sample(s)")
  | [] :: _ => Raise (ValueError "Found array with 0 feature(s)")
  | r :: _ =>
      match all_finite X with
      | None => Raise (ValueError "Input X contains NaN.")
      | Some M =>
          let n_samples := List.length M in
          let n_features := List.length r in
          let k := match n_components with
                   | None => Nat.min n_samples n_features
                   | Some k => k
                   end in
          if (k <=? Nat.min n_samples n_features)%nat
          then Ok (pca_postprocess k n_samples (linalg_svd (center M)))
          else Raise (ValueError "n_components must be between 0 and min(n_samples, n_features)")
      end
  end.

(** Lines 53-145 on the cleaned table. *)
Definition analyse (df : list Row) : result Report :=
  normalized_data <- scaler_fit_transform (map values df) ;;
  full <- pca_fit_transform None normalized_data ;;
  two <- pca_fit_transform (Some 2%nat) normalized_data ;;
  one <- pca_fit_transform (Some 1%nat) normalized_data ;;
  Ok (mkReport
        (components_ (fst full))
        (explained_variance_ (fst full))
        (explained_variance_ratio_ (fst full))
        (cumsum (explained_variance_ratio_ (fst full)))
        (explained_variance_ratio_ (fst two))
        (cumsum (explained_variance_ratio_ (fst two)))
        (top_students (map alumno df) (snd one))).

(** The whole script. *)
Definition main (dataframes : list DataFrame) : result Report :=
  df <- aggregate dataframes ;;
  df <- impute df ;;
  analyse df.

(** The script with lines 46-49 left out. *)
Definition main_without_imputation (dataframes : list DataFrame) : result Report :=
  df <- aggregate dataframes ;;
  analyse df.

End Analysis.

(** ** Predicates used in the statements *)

(** A float cell that is NaN or not negative. *)
Definition nonneg_cell (c : cell) : Prop :=
  match c with
  | Some q => 0 <= q
  | None => True
  end.

Definition nonneg_row (r : Row) : Prop := Forall nonneg_cell (values r).

(** No int64 cell of the record is the most negative int64. *)
Definition no_int64_min (r : RawRecord) : bool :=
  forallb (fun c => match c with
                    | I64 z => negb (Z.eqb z Int64.min_value)
                    | _ => true
                    end) (raw_values r).

(** The table lines 46-49 leave when line 46 does not raise. *)
Definition imputed (df : list Row) : list Row := fillna df (transformed df).

(** The row the imputation makes of [r] when [part] is its [grupo]
    partition. *)
Definition fill_row (part : list Row) (r : Row) : Row :=
  mkRow (alumno r) (grupo r)
        (mapi (fun j c => fillna_cell c (median (frame_column j part))) (values r)).

(** A report sorted by descending score. *)
Definition descending (l : list (string * Q)) : Prop :=
  StronglySorted (fun a b => snd b <= snd a) l.

Definition nonincreasing (l : list Q) : Prop :=
  StronglySorted (fun a b => b <= a) l.

Definition nondecreasing (l : list Q) : Prop :=
  StronglySorted (fun a b => a <= b) l.

(** The running sums of finite values. *)
Fixpoint qcumsum_from (acc : Q) (l : list Q) : list Q :=
  match l with
  | [] => []
  | x :: l' => (acc + x) :: qcumsum_from (acc + x) l'
  end.

(** What [linalg.svd(X, full_matrices=False)] promises of its result for an
    [n] x [p] matrix: [U] is n x r, [Sigma] has r entries and [Vt] is
    r x p, with r = min(n, p). *)
Definition svd_shape (n p : nat) (usv : matrix * list Q * matrix) : Prop :=
  let '(U, Sigma, Vt) := usv in
  List.length U = n /\
  Forall (fun u => List.length u = Nat.min n p) U /\
  List.length Sigma = Nat.min n p /\
  List.length Vt = Nat.min n p /\
  Forall (fun v => List.length v = p) Vt.

(** The singular values come in descending order and are not negative. *)
Definition svd_order (usv : matrix * list Q * matrix) : Prop :=
  let '(_, Sigma, _) := usv in
  nonincreasing Sigma /\ Forall (fun s => 0 <= s) Sigma.

(** A check that [U, Sigma, Vt] is a singular value decomposition of [M]:
    [U * diag(Sigma) * Vt = M], the columns of [U] and the rows of [Vt] are
    orthonormal. *)
Definition dot (a b : list Q) : Q :=
  sumQ (map (fun p => fst p * snd p) (combine a b)).

Definition transpose (ncols : nat) (M : matrix) : matrix :=
  map (fun j => qcolumn j M) (seq 0 ncols).

Definition matmul (ncols : nat) (A B : matrix) : matrix :=
  map (fun a => map (dot a) (transpose ncols B)) A.

Definition matrix_eqb (A B : matrix) : bool :=
  (List.length A =? List.length B)%nat &&
  forallb (fun p =>
             (List.length (fst p) =? List.length (snd p))%nat &&
             forallb (fun q => Qeq_bool (fst q) (snd q)) (combine (fst p) (snd p)))
          (combine A B).

Definition identity (n : nat) : matrix :=
  map (fun i => map (fun j => if (i =? j)%nat then 1 else 0) (seq 0 n)) (seq 0 n).

Definition orthonormal_rows (V : matrix) : bool :=
  matrix_eqb (map (fun a => map (dot a) V) V) (identity (List.length V)).

Definition svd_check (M : matrix) (usv : matrix * list Q * matrix) : bool :=
  let '(U, Sigma, Vt) := usv in
  let p := List.length (hd [] M) in
  matrix_eqb
    (matmul p (map (fun u => map (fun q => fst q * snd q) (combine u Sigma)) U) Vt)
    M
  && orthonormal_rows (transpose (List.length Sigma) U)
  && orthonormal_rows Vt.

(** ** Example inputs *)

(** The end-to-end scenario of the spec: Ana, grupo A, attempts -5.0 and
    7.0, one attempt per file. *)
Definition ana_file_1 : DataFrame :=
  mkDF ["nota"] [mkRaw (Some "Ana") (Some "A") [F64 (-5)]].

Definition ana_file_2 : DataFrame :=
  mkDF ["nota"] [mkRaw (Some "Ana") (Some "A") [F64 7]].

(** The same scenario with both attempts in each of the two files. *)
Definition ana_file_both : DataFrame :=
  mkDF ["nota"] [mkRaw (Some "Ana") (Some "A") [F64 (-5)];
                 mkRaw (Some "Ana") (Some "A") [F64 7]].

(** A file whose integer column holds the most negative int64. *)
Definition int64_min_file : DataFrame :=
  mkDF ["nota"] [mkRaw (Some "Ana") (Some "A") [I64 (-9223372036854775808)];
                 mkRaw (Some "Ana") (Some "A") [I64 (-9223372036854775808)]].

(** A file in which each student misses one of the two tests in both
    attempts: every aggregated row has a NaN. *)
Definition all_incomplete_file : DataFrame :=
  mkDF ["nota1"; "nota2"]
       [mkRaw (Some "Ana") (Some "A") [F64 5; NaN];
        mkRaw (Some "Ana") (Some "A") [F64 7; NaN];
        mkRaw (Some "Luis") (Some "A") [NaN; F64 3];
        mkRaw (Some "Luis") (Some "A") [NaN; F64 4]].

(** A table with missing cells in two partitions. *)
Definition gaps : list Row :=
  [mkRow "a" "A" [Some 1; None];
   mkRow "b" "A" [None; Some 4];
   mkRow "c" "B" [None; Some 9];
   mkRow "d" "A" [Some 5; Some 6]].

(** Two records with the same top score. *)
Definition tie_alumnos : list string := ["Y"; "X"].
Definition tie_scores : matrix := [[1]; [1]].

(** A report with one top score. *)
Definition clear_alumnos : list string := ["Y"; "X"; "Z"; "W"].
Definition clear_scores : matrix := [[1]; [5 # 2]; [-3]; [1]].

(** A file in which the only numeric column is constant. *)
Definition constant_file : DataFrame :=
  mkDF ["nota"] [mkRaw (Some "Ana") (Some "A") [F64 3];
                 mkRaw (Some "Luis") (Some "A") [F64 3]].


(** A file in which two students have the same values in both columns. *)
Definition identical_file : DataFrame :=
  mkDF ["nota1"; "nota2"]
       [mkRaw (Some "Ana") (Some "A") [F64 3; F64 4];
        mkRaw (Some "Luis") (Some "A") [F64 3; F64 4]].

(** The decomposition the zero 2 x 2 matrix has. *)
Definition zero_svd (_ : matrix) : matrix * list Q * matrix :=
  (identity 2, [0; 0], identity 2).

(** A standardized table of four records and two features, and its
    decomposition. *)
Definition square_X : list (list cell) :=
  [[Some 1; Some 1]; [Some 1; Some (-1)]; [Some (-1); Some 1]; [Some (-1); Some (-1)]].

Definition square_M : matrix := [[1; 1]; [1; -1]; [-1; 1]; [-1; -1]].

Definition half : Q := 1 # 2.

Definition square_svd (_ : matrix) : matrix * list Q * matrix :=
  ([[half; half]; [half; - half]; [- half; half]; [- half; - half]],
   [2; 2],
   identity 2).

(** A standardized table of four records and five features (the last two
    constant), and its decomposition: more features than records. *)
Definition wide_X : list (list cell) :=
  [[Some 1; Some 1; Some 1; Some 0; Some 0];
   [Some 1; Some (-1); Some (-1); Some 0; Some 0];
   [Some (-1); Some 1; Some (-1); Some 0; Some 0];
   [Some (-1); Some (-1); Some 1; Some 0; Some 0]].

Definition wide_M : matrix :=
  [[1; 1; 1; 0; 0]; [1; -1; -1; 0; 0]; [-1; 1; -1; 0; 0]; [-1; -1; 1; 0; 0]].

Definition wide_svd (_ : matrix) : matrix * list Q * matrix :=
  ([[half; half; half; half];
    [half; - half; - half; half];
    [- half; half; - half; half];
    [- half; - half; half; half]],
   [2; 2; 2; 0],
   [[1; 0; 0; 0; 0]; [0; 1; 0; 0; 0]; [0; 0; 1; 0; 0]; [0; 0; 0; 1; 0]]).

(** What [PCA(n_components=None)] returns for [square_X]. *)
Definition square_pca : PCA :=
  mkPCA 2 [[1; 0]; [0; 1]] [Some (4 # 3); Some (4 # 3)]
        [Some (36 # 72); Some (36 # 72)].

Definition square_T : matrix :=
  [[2 # 2; 2 # 2]; [2 # 2; -2 # 2]; [-2 # 2; 2 # 2]; [-2 # 2; -2 # 2]].

(** A file of four students and five numeric columns whose standardized
    table is [wide_X]: every column has variance 1 or 0. *)
Definition wide_file : DataFrame :=
  mkDF ["n1"; "n2"; "n3"; "n4"; "n5"]
       [mkRaw (Some "Ana") (Some "A") [F64 3; F64 3; F64 3; F64 5; F64 5];
        mkRaw (Some "Eva") (Some "A") [F64 3; F64 1; F64 1; F64 5; F64 5];
        mkRaw (Some "Luis") (Some "A") [F64 1; F64 3; F64 1; F64 5; F64 5];
        mkRaw (Some "Paz") (Some "A") [F64 1; F64 1; F64 3; F64 5; F64 5]].

(** The square root on the one value the scaler takes it of for
    [wide_file], the variance 1. *)
Definition sqrt_at_one (q : Q) : Q := q.

(** Two files with different headers; the first has an int64 column. *)
Definition header_xy : DataFrame :=
  mkDF ["x"; "y"] [mkRaw (Some "Ana") (Some "A") [I64 (-1); F64 2]].

Definition header_yz : DataFrame :=
  mkDF ["y"; "z"] [mkRaw (Some "Luis") (Some "A") [F64 3; I64 4]].





(** Two files with one attempt each of four students, some values with
    the wrong sign; the means of the sign-corrected attempts are 3 or 1. *)
Definition attempts_1 : DataFrame :=
  mkDF ["nota1"; "nota2"]
       [mkRaw (Some "Ana") (Some "A") [F64 (-2); F64 4];
        mkRaw (Some "Eva") (Some "A") [F64 3; F64 (-1)];
        mkRaw (Some "Luis") (Some "A") [F64 1; F64 2];
        mkRaw (Some "Paz") (Some "A") [F64 0; F64 1]].

Definition attempts_2 : DataFrame :=
  mkDF ["nota1"; "nota2"]
       [mkRaw (Some "Ana") (Some "A") [F64 4; F64 2];
        mkRaw (Some "Eva") (Some "A") [F64 3; F64 1];
        mkRaw (Some "Luis") (Some "A") [F64 1; F64 (-4)];
        mkRaw (Some "Paz") (Some "A") [F64 2; F64 1]].

Definition attempts_combined : DataFrame :=
  Eval vm_compute in
    match pd_concat [attempts_1; attempts_2] with
    | Ok df => df
    | Raise _ => mkDF [] []
    end.

Definition attempts_table : list Row :=
  Eval vm_compute in
    match aggregate [attempts_1; attempts_2] with
    | Ok df => df
    | Raise _ => []
    end.

(** ** Predicates and inputs for the further properties *)

(** Two float cells that are both NaN or hold the same number. *)
Definition cell_equiv (c d : cell) : Prop :=
  match c, d with
  | Some x, Some y => x == y
  | None, None => True
  | _, _ => False
  end.

(** Two rows with the same identifiers and the same numbers. *)
Definition row_equiv (r s : Row) : Prop :=
  alumno r = alumno s /\ grupo r = grupo s /\
  Forall2 cell_equiv (values r) (values s).

Definition key (r : Row) : string * string := (alumno r, grupo r).

(** Lines 27-39 on the combined table. *)
Definition cleaned (df : DataFrame) : list Row :=
  dropna (groupby_mean (sign_correct df)).

(** A record with both identifiers. *)
Definition has_keys (r : RawRecord) : bool :=
  match raw_alumno r, raw_grupo r with
  | Some _, Some _ => true
  | _, _ => false
  end.

Definition drop_missing_keys (df : DataFrame) : DataFrame :=
  mkDF (numeric_columns df) (filter has_keys (records df)).

(** Membership in a list of categories. *)
Definition inb (l : list string) (x : string) : bool := existsb (String.eqb x) l.

(** A raw cell that is NaN or not negative. *)
Definition raw_nonneg (c : num) : Prop :=
  match c with
  | I64 z => (0 <= z)%Z
  | F64 q => 0 <= q
  | NaN => True
  end.

(** A file with records that miss an identifier. *)
Definition missing_keys_file : DataFrame :=
  mkDF ["nota"]
       [mkRaw (Some "Ana") (Some "A") [F64 4];
        mkRaw None (Some "A") [F64 9];
        mkRaw (Some "Zoe") None [F64 1];
        mkRaw (Some "Ana") (Some "A") [F64 6]].

(** A file without negative values. *)
Definition nonneg_file : DataFrame :=
  mkDF ["n1"; "n2"]
       [mkRaw (Some "Ana") (Some "A") [F64 (3 # 2); I64 7];
        mkRaw (Some "Luis") (Some "B") [NaN; I64 0]].

(** ** Theorems *)

(** *** Lists *)

Lemma mapi_nth_error {A B : Type} (f : nat -> A -> B) (l : list A) (j : nat) :
  nth_error (mapi f l) j = option_map (f j) (nth_error l j).
Proof.
  unfold mapi.
  assert (G : forall s (l : list A) j,
             nth_error (map (fun p => f (fst p) (snd p))
                            (combine (seq s (List.length l)) l)) j
             = option_map (f (s + j)%nat) (nth_error l j)).
  { clear. intros s l; revert s.
    induction l as [|x l IH]; intros s [|j]; simpl; try reflexivity.
    - now rewrite Nat.add_0_r.
    - rewrite IH. now rewrite Nat.add_succ_r. }
  apply (G 0%nat).
Qed.

Lemma map_combine_self {A B C : Type} (g : A * B -> C) (f : A -> B) (l : list A) :
  map g (combine l (map f l)) = map (fun a => g (a, f a)) l.
Proof.
  induction l as [|a l IH]; simpl; [reflexivity | now rewrite IH].
Qed.

Lemma combine_nth_error {A B : Type} (l1 : list A) (l2 : list B) (n : nat) (a : A) (b : B) :
  nth_error l1 n = Some a -> nth_error l2 n = Some b ->
  nth_error (combine l1 l2) n = Some (a, b).
Proof.
  revert l2 n.
  induction l1 as [|x l1 IH]; intros [|y l2] [|n] H1 H2;
    simpl in *; try discriminate.
  - now inversion H1; inversion H2.
  - now apply IH.
Qed.

Lemma fill_combine_mapi (h : nat -> cell -> cell) (l : list cell) :
  map (fun q => fillna_cell (fst q) (snd q))
      (combine l (mapi (fun j c => fillna_cell c (h j c)) l))
  = mapi (fun j c => fillna_cell c (h j c)) l.
Proof.
  apply nth_error_ext; intro n.
  rewrite nth_error_map, mapi_nth_error.
  destruct (nth_error l n) as [c|] eqn:E.
  - rewrite (combine_nth_error _ _ _ c (fillna_cell c (h n c)) E).
    + simpl. now destruct c.
    + now rewrite mapi_nth_error, E.
  - assert (Hc : nth_error (combine l (mapi (fun j c => fillna_cell c (h j c)) l)) n
                 = None).
    { apply nth_error_None. rewrite length_combine.
      apply nth_error_None in E. lia. }
    now rewrite Hc.
Qed.

(** *** Insertion sort *)

Lemma insert_In {A : Type} (leb : A -> A -> bool) (x y : A) (l : list A) :
  In y (insert leb x l) <-> y = x \/ In y l.
Proof.
  induction l as [|z l IH]; simpl.
  - intuition.
  - destruct (leb x z); simpl; rewrite ?IH; intuition.
Qed.

Lemma isort_In {A : Type} (leb : A -> A -> bool) (y : A) (l : list A) :
  In y (isort leb l) <-> In y l.
Proof.
  induction l as [|x l IH]; simpl; [tauto|].
  rewrite insert_In, IH. intuition.
Qed.

Lemma insert_perm {A : Type} (leb : A -> A -> bool) (x : A) (l : list A) :
  Permutation (x :: l) (insert leb x l).
Proof.
  induction l as [|z l IH]; simpl; [reflexivity|].
  destruct (leb x z); [reflexivity|].
  rewrite perm_swap. now constructor.
Qed.

Lemma isort_perm {A : Type} (leb : A -> A -> bool) (l : list A) :
  Permutation l (isort leb l).
Proof.
  induction l as [|x l IH]; simpl; [constructor|].
  rewrite <- insert_perm. now constructor.
Qed.

(** *** Sign correction (lines 27-28) *)

Lemma int64_abs_small (z : Z) :
  Int64.in_range z = true -> z <> Int64.min_value ->
  Int64.abs z = Z.abs z.
Proof.
  unfold Int64.in_range, Int64.abs, Int64.wrap, Int64.min_value,
    Int64.max_value, Int64.modulus.
  intros H Hne. apply andb_true_iff in H. destruct H as [H1 H2].
  apply Z.leb_le in H1, H2.
  rewrite Z.mod_small by lia. lia.
Qed.

Lemma int64_abs_idempotent (z : Z) :
  Int64.in_range z = true -> Int64.abs (Int64.abs z) = Int64.abs z.
Proof.
  intro H. destruct (Z.eq_dec z Int64.min_value) as [->|Hne].
  - reflexivity.
  - rewrite (int64_abs_small z H Hne).
    unfold Int64.in_range, Int64.min_value, Int64.max_value in *.
    apply andb_true_iff in H. destruct H as [H1 H2].
    apply Z.leb_le in H1, H2.
    unfold Int64.abs, Int64.wrap, Int64.min_value, Int64.modulus.
    rewrite Z.abs_idemp.
    rewrite Z.mod_small by lia. lia.
Qed.

Lemma Qabs_idempotent (q : Q) : Qabs (Qabs q) = Qabs q.
Proof.
  destruct q as [n d]. simpl. now rewrite Z.abs_idemp.
Qed.

Lemma np_abs_idempotent (c : num) :
  num_ok c = true -> np_abs (np_abs c) = np_abs c.
Proof.
  destruct c as [z|q|]; simpl; intro H.
  - now rewrite int64_abs_idempotent.
  - now rewrite Qabs_idempotent.
  - reflexivity.
Qed.

Lemma abs_record_idempotent (r : RawRecord) :
  record_ok r = true -> abs_record (abs_record r) = abs_record r.
Proof.
  unfold record_ok, abs_record. intro H. simpl. f_equal.
  rewrite map_map. apply map_ext_in. intros c Hc.
  apply np_abs_idempotent.
  rewrite forallb_forall in H. now apply H.
Qed.

(** C9.  Sign correction is idempotent: on every combined table (whose
    int64 cells are int64 values), taking the absolute value of the numeric
    columns twice gives exactly the table that taking it once gives. *)
Theorem sign_correct_idempotent (df : DataFrame) :
  frame_ok df = true ->
  sign_correct (sign_correct df) = sign_correct df.
Proof.
  unfold frame_ok, sign_correct. intro H. simpl. f_equal.
  rewrite map_map. apply map_ext_in. intros r Hr.
  apply abs_record_idempotent.
  rewrite forallb_forall in H. now apply H.
Qed.

Lemma sign_correct_idempotent_witness :
  frame_ok int64_min_file = true /\
  sign_correct (sign_correct int64_min_file) = sign_correct int64_min_file.
Proof.
  split; [reflexivity | apply sign_correct_idempotent; reflexivity].
Defined.

(** *** Imputation (lines 46-49) *)

Lemma imputed_rows (df : list Row) :
  imputed df = map (fun r => fill_row (partition_of (grupo r) df) r) df.
Proof.
  unfold imputed, fillna, transformed.
  rewrite map_combine_self. apply map_ext. intro r.
  unfold fill_row. simpl. f_equal.
  apply (fill_combine_mapi
           (fun j _ => median (frame_column j (partition_of (grupo r) df)))).
Qed.

Lemma impute_ok (df df' : list Row) :
  impute df = Ok df' -> has_cells df = true /\ df' = imputed df.
Proof.
  unfold impute, medians, imputed.
  destruct (has_cells df); simpl; intro H; [|discriminate].
  inversion H. tauto.
Qed.

Lemma impute_has_cells (df : list Row) :
  has_cells df = true -> impute df = Ok (imputed df).
Proof.
  unfold impute, medians, imputed. now intros ->.
Qed.

Lemma impute_no_cells (df : list Row) :
  has_cells df = false ->
  impute df = Raise (ValueError "No objects to concatenate").
Proof.
  unfold impute, medians. now intros ->.
Qed.

Lemma has_cells_row (df : list Row) (r : Row) (c : cell) :
  In r df -> In c (values r) -> has_cells df = true.
Proof.
  intros Hr Hc. unfold has_cells. apply existsb_exists. exists r.
  split; [exact Hr|]. destruct (values r); [contradiction | reflexivity].
Qed.

Lemma partition_of_imputed (g : string) (df : list Row) :
  partition_of g (imputed df)
  = map (fill_row (partition_of g df)) (partition_of g df).
Proof.
  rewrite imputed_rows. unfold partition_of at 1.
  rewrite filter_map_swap. simpl.
  fold (partition_of g df).
  apply map_ext_in. intros r Hr.
  unfold partition_of in Hr. apply filter_In in Hr. destruct Hr as [_ Hg].
  apply String.eqb_eq in Hg. now rewrite Hg.
Qed.

Lemma fill_row_complete (part : list Row) (r : Row) :
  complete r = true -> fill_row part r = r.
Proof.
  unfold complete, fill_row. intro H. destruct r as [a g vs]. simpl in *.
  f_equal. apply nth_error_ext. intro n.
  rewrite mapi_nth_error.
  destruct (nth_error vs n) as [c|] eqn:E; [|reflexivity].
  simpl. rewrite forallb_forall in H.
  specialize (H c (nth_error_In _ _ E)).
  destruct c; [reflexivity | discriminate].
Qed.

Lemma imputed_complete (df : list Row) :
  (forall r, In r df -> complete r = true) -> imputed df = df.
Proof.
  intro H. rewrite imputed_rows.
  transitivity (map (fun r : Row => r) df); [|apply map_id].
  apply map_ext_in. intros r Hr. apply fill_row_complete. now apply H.
Qed.

Lemma dropna_complete (df : list Row) (r : Row) :
  In r (dropna df) -> complete r = true.
Proof.
  unfold dropna. intro H. apply filter_In in H. tauto.
Qed.

Lemma aggregate_complete (dataframes : list DataFrame) (df : list Row) :
  aggregate dataframes = Ok df -> forall r, In r df -> complete r = true.
Proof.
  unfold aggregate. destruct (pd_concat dataframes); simpl; [|discriminate].
  intros E r Hr. inversion E; subst. eapply dropna_complete; eauto.
Qed.

(** Without a cell in the table the standardization has no sample or no
    feature to work on. *)
Lemma analyse_no_cells (np_sqrt : Q -> Q)
    (linalg_svd : matrix -> matrix * list Q * matrix) (df : list Row) :
  has_cells df = false -> exists e, analyse np_sqrt linalg_svd df = Raise e.
Proof.
  intro H. unfold analyse, scaler_fit_transform.
  destruct df as [|r df]; simpl; [eexists; reflexivity|].
  simpl in H. destruct (values r); [eexists; reflexivity | discriminate].
Qed.

(** C2, as amended.  For files whose alumno and grupo columns hold text
    (a numeric identifier column would count as a numeric column at line
    27 and have no median at line 46): the table after the row drop has no
    NaN.  When it has a cell, the imputation of lines 46-49 returns it unchanged and the
    script computes the same result with and without these lines.  When
    it has none, line 46 raises and the script without the lines fails in
    the standardization: both end with an exception.  When the Loader
    fails, both end with its exception. *)
Theorem imputation_is_identity_after_dropna :
  (forall dataframes df,
      aggregate dataframes = Ok df ->
      Forall (fun r => Forall (fun c => is_defined c = true) (values r)) df)
  /\
  (forall dataframes df,
      aggregate dataframes = Ok df ->
      has_cells df = true ->
      impute df = Ok df /\
      forall np_sqrt linalg_svd,
        main np_sqrt linalg_svd dataframes
        = main_without_imputation np_sqrt linalg_svd dataframes)
  /\
  (forall dataframes df,
      aggregate dataframes = Ok df ->
      has_cells df = false ->
      forall np_sqrt linalg_svd,
        main np_sqrt linalg_svd dataframes
        = Raise (ValueError "No objects to concatenate") /\
        exists e, main_without_imputation np_sqrt linalg_svd dataframes = Raise e)
  /\
  (forall dataframes e,
      aggregate dataframes = Raise e ->
      forall np_sqrt linalg_svd,
        main np_sqrt linalg_svd dataframes = Raise e /\
        main_without_imputation np_sqrt linalg_svd dataframes = Raise e).
Proof.
  split; [|split; [|split]].
  - intros dataframes df E. apply Forall_forall. intros r Hr.
    apply Forall_forall. intros c Hc.
    pose proof (aggregate_complete _ _ E r Hr) as H. unfold complete in H.
    rewrite forallb_forall in H. now apply H.
  - intros dataframes df E Hcells.
    assert (Hi : impute df = Ok df).
    { rewrite impute_has_cells by exact Hcells. f_equal.
      apply imputed_complete. now apply (aggregate_complete dataframes). }
    split; [exact Hi|]. intros np_sqrt linalg_svd.
    unfold main, main_without_imputation. rewrite E. simpl.
    now rewrite Hi.
  - intros dataframes df E Hcells np_sqrt linalg_svd.
    unfold main, main_without_imputation. rewrite E. simpl.
    rewrite impute_no_cells by exact Hcells. split; [reflexivity|].
    now apply analyse_no_cells.
  - intros dataframes e E np_sqrt linalg_svd.
    unfold main, main_without_imputation. now rewrite E.
Qed.

Lemma imputation_is_identity_after_dropna_witness :
  attempts_table = [mkRow "Ana" "A" [Some (6 # 2); Some (6 # 2)];
                    mkRow "Eva" "A" [Some (6 # 2); Some (2 # 2)];
                    mkRow "Luis" "A" [Some (2 # 2); Some (6 # 2)];
                    mkRow "Paz" "A" [Some (2 # 2); Some (2 # 2)]] /\
  impute attempts_table = Ok attempts_table /\
  exists report,
    main sqrt_at_one square_svd [attempts_1; attempts_2] = Ok report /\
    main_without_imputation sqrt_at_one square_svd [attempts_1; attempts_2]
    = Ok report /\
    eigenvalues report = [Some (4 # 3); Some (4 # 3)] /\
    top3 report = [("Ana", 2 # 2); ("Eva", 2 # 2); ("Luis", -2 # 2)].
Proof.
  pose proof (proj1 (proj2 imputation_is_identity_after_dropna)
                [attempts_1; attempts_2] attempts_table eq_refl eq_refl)
    as [Hi Hm].
  split; [reflexivity|]. split; [exact Hi|].
  eexists. split; [|split; [|split]].
  - vm_compute. reflexivity.
  - rewrite <- (Hm sqrt_at_one square_svd). vm_compute. reflexivity.
  - reflexivity.
  - reflexivity.
Defined.

(** C2, as stated, fails when the row drop leaves nothing.  Every
    aggregated row of [all_incomplete_file] has a NaN, the table after the
    row drop is empty, and the imputation does not return it: line 46
    raises.  The script ends there, and without lines 46-49 it ends in the
    standardization instead. *)
Lemma imputation_counterexample :
  aggregate [all_incomplete_file] = Ok [] /\
  impute [] = Raise (ValueError "No objects to concatenate") /\
  forall np_sqrt linalg_svd,
    main np_sqrt linalg_svd [all_incomplete_file]
    = Raise (ValueError "No objects to concatenate") /\
    main_without_imputation np_sqrt linalg_svd [all_incomplete_file]
    = Raise (ValueError "Found array with 0 sample(s)").
Proof.
  split; [reflexivity|]. split; [reflexivity|].
  intros np_sqrt linalg_svd. split; reflexivity.
Qed.

(** *** Grouping (lines 33-37) *)

Lemma non_null_In (a : string) (keys : list (option string)) :
  In a (non_null keys) <-> In (Some a) keys.
Proof.
  unfold non_null. rewrite in_flat_map. split.
  - intros [[s|] [H1 H2]]; simpl in H2; [|tauto].
    destruct H2 as [->|[]]. exact H1.
  - intro H. exists (Some a). simpl. tauto.
Qed.

Lemma categories_In (a : string) (keys : list (option string)) :
  In a (categories keys) <-> In (Some a) keys.
Proof.
  unfold categories. now rewrite isort_In, nodup_In, non_null_In.
Qed.





Lemma group_records_sign_correct (df : DataFrame) (a g : string) :
  group_records (sign_correct df) a g = map abs_record (group_records df a g).
Proof.
  unfold group_records, sign_correct. simpl.
  rewrite filter_map_swap. f_equal.
Qed.

Lemma group_records_keys (df : DataFrame) (a g : string) :
  group_records df a g <> [] ->
  In (Some a) (map raw_alumno (records df)) /\
  In (Some g) (map raw_grupo (records df)).
Proof.
  unfold group_records. intro H.
  destruct (filter (in_group a g) (records df)) as [|r l] eqn:E; [congruence|].
  assert (Hr : In r (filter (in_group a g) (records df))) by (rewrite E; now left).
  apply filter_In in Hr. destruct Hr as [Hin Hk].
  unfold in_group in Hk.
  destruct (raw_alumno r) as [a'|] eqn:Ea; [|discriminate].
  destruct (raw_grupo r) as [g'|] eqn:Eg; [|discriminate].
  apply andb_true_iff in Hk. destruct Hk as [H1 H2].
  apply String.eqb_eq in H1, H2. subst.
  split; apply in_map_iff; exists r; auto.
Qed.


Lemma raw_column_abs (j : nat) (rs : list RawRecord) :
  raw_column j (map abs_record rs)
  = map (fun r => as_float (np_abs (nth j (raw_values r) NaN))) rs.
Proof.
  unfold raw_column. rewrite map_map. apply map_ext. intro r. simpl.
  f_equal. apply (map_nth np_abs (raw_values r) NaN j).
Qed.




(** *** Non-negative values (lines 27-49) *)

Lemma round_nat_nonneg (n : Z) : (0 <= n)%Z -> (0 <= Float64.round_nat n)%Z.
Proof.
  intro H. unfold Float64.round_nat.
  destruct (Z.log2 n - 52 <=? 0)%Z; [exact H|].
  destruct (Z.le_gt_cases 0 (Z.log2 n - 52)) as [L|L].
  - assert (Hp : (0 < 2 ^ (Z.log2 n - 52))%Z) by (apply Z.pow_pos_nonneg; lia).
    assert (Hq : (0 <= n / 2 ^ (Z.log2 n - 52))%Z) by (apply Z.div_pos; lia).
    destruct (_ || _); nia.
  - rewrite (Z.pow_neg_r 2 _ L). destruct (_ || _); lia.
Qed.

Lemma of_int_nonneg (z : Z) : (0 <= z)%Z -> (0 <= Float64.of_int z)%Z.
Proof.
  intro H. unfold Float64.of_int.
  pose proof (round_nat_nonneg (Z.abs z) (Z.abs_nonneg z)).
  pose proof (Z.sgn_nonneg z). nia.
Qed.

Lemma of_int_abs (z : Z) : Float64.of_int (Z.abs z) = Z.abs (Float64.of_int z).
Proof.
  unfold Float64.of_int. rewrite Z.abs_idemp.
  pose proof (round_nat_nonneg (Z.abs z) (Z.abs_nonneg z)) as Hr.
  destruct (Z.lt_trichotomy z 0) as [Hn|[->|Hp]].
  - rewrite (Z.sgn_neg z Hn), (Z.sgn_pos (Z.abs z)) by lia. lia.
  - reflexivity.
  - rewrite (Z.sgn_pos z Hp), (Z.sgn_pos (Z.abs z)) by lia. lia.
Qed.

Lemma np_abs_nonneg (c : num) :
  num_ok c = true ->
  match c with I64 z => z <> Int64.min_value | _ => True end ->
  nonneg_cell (as_float (np_abs c)).
Proof.
  destruct c as [z|q|]; simpl; intros Hok Hmin.
  - rewrite int64_abs_small by assumption.
    pose proof (of_int_nonneg (Z.abs z) (Z.abs_nonneg z)).
    unfold Qle. simpl. lia.
  - apply Qabs_nonneg.
  - exact I.
Qed.

Lemma Qplus_nonneg (a b : Q) : 0 <= a -> 0 <= b -> 0 <= a + b.
Proof. intros. lra. Qed.

Lemma sumQ_nonneg (l : list Q) : Forall (fun q => 0 <= q) l -> 0 <= sumQ l.
Proof.
  induction 1 as [|q l Hq _ IH]; simpl; [apply Qle_refl|].
  now apply Qplus_nonneg.
Qed.

Lemma valid_In (q : Q) (l : list cell) : In q (valid l) <-> In (Some q) l.
Proof.
  unfold valid. rewrite in_flat_map. split.
  - intros [[s|] [H1 H2]]; simpl in H2; [|tauto].
    destruct H2 as [->|[]]. exact H1.
  - intro H. exists (Some q). simpl. tauto.
Qed.

Lemma valid_nonneg (l : list cell) :
  Forall nonneg_cell l -> Forall (fun q => 0 <= q) (valid l).
Proof.
  intro H. apply Forall_forall. intros q Hq.
  apply valid_In in Hq. rewrite Forall_forall in H. exact (H _ Hq).
Qed.

Lemma count_pos (x : Q) (l : list Q) : 0 < count (x :: l).
Proof.
  unfold count, Qlt. simpl. lia.
Qed.

Lemma Qdiv_nonneg (a b : Q) : 0 <= a -> 0 < b -> 0 <= a / b.
Proof.
  intros Ha Hb. unfold Qdiv. apply Qmult_le_0_compat; [exact Ha|].
  apply Qinv_le_0_compat. now apply Qlt_le_weak.
Qed.

Lemma nanmean_nonneg (l : list cell) :
  Forall nonneg_cell l -> nonneg_cell (nanmean l).
Proof.
  intro H. apply valid_nonneg in H. unfold nanmean.
  destruct (valid l) as [|x v]; [exact I|].
  change (0 <= sumQ (x :: v) / count (x :: v)).
  apply Qdiv_nonneg; [now apply sumQ_nonneg | apply count_pos].
Qed.

Lemma nth_nonneg (l : list Q) (n : nat) :
  Forall (fun q => 0 <= q) l -> 0 <= nth n l 0.
Proof.
  intro H. destruct (nth_in_or_default n l 0) as [Hin|E].
  - rewrite Forall_forall in H. now apply H.
  - rewrite E. apply Qle_refl.
Qed.

Lemma median_nonneg (l : list cell) :
  Forall nonneg_cell l -> nonneg_cell (median l).
Proof.
  intro H. apply valid_nonneg in H. unfold median.
  assert (Hs : Forall (fun q => 0 <= q) (isort Qle_bool (valid l))).
  { apply Forall_forall. intros q Hq. apply isort_In in Hq.
    rewrite Forall_forall in H. now apply H. }
  destruct (List.length (isort Qle_bool (valid l))) as [|n]; [exact I|].
  destruct (Nat.even (S n)); unfold nonneg_cell.
  - apply Qdiv_nonneg; [|reflexivity].
    apply Qplus_nonneg; now apply nth_nonneg.
  - now apply nth_nonneg.
Qed.

Lemma mean_row_nonneg (df : DataFrame) (a g : string) :
  frame_ok df = true ->
  forallb no_int64_min (records df) = true ->
  nonneg_row (mean_row (sign_correct df) a g).
Proof.
  intros Hok Hmin. unfold nonneg_row, mean_row. simpl.
  apply Forall_forall. intros c Hc. apply in_map_iff in Hc.
  destruct Hc as [j [<- _]]. apply nanmean_nonneg.
  rewrite group_records_sign_correct, raw_column_abs.
  apply Forall_forall. intros c Hc. apply in_map_iff in Hc.
  destruct Hc as [r [<- Hr]].
  unfold group_records in Hr. apply filter_In in Hr. destruct Hr as [Hr _].
  unfold frame_ok in Hok. rewrite forallb_forall in Hok, Hmin.
  specialize (Hok r Hr). specialize (Hmin r Hr).
  unfold record_ok in Hok. unfold no_int64_min in Hmin.
  rewrite forallb_forall in Hok, Hmin.
  destruct (nth_in_or_default j (raw_values r) NaN) as [Hin|E];
    [|rewrite E; exact I].
  apply np_abs_nonneg; [now apply Hok|].
  specialize (Hmin _ Hin).
  destruct (nth j (raw_values r) NaN) as [z| |]; try exact I.
  apply negb_true_iff in Hmin. now apply Z.eqb_neq in Hmin.
Qed.

Lemma groupby_mean_nonneg (df : DataFrame) :
  frame_ok df = true ->
  forallb no_int64_min (records df) = true ->
  Forall nonneg_row (groupby_mean (sign_correct df)).
Proof.
  intros Hok Hmin. apply Forall_forall. intros r Hr.
  unfold groupby_mean in Hr. apply in_flat_map in Hr.
  destruct Hr as [a [_ Hr]]. apply in_map_iff in Hr.
  destruct Hr as [g [<- _]]. now apply mean_row_nonneg.
Qed.

Lemma frame_column_nonneg (j : nat) (df : list Row) :
  Forall nonneg_row df -> Forall nonneg_cell (frame_column j df).
Proof.
  intro H. apply Forall_forall. intros c Hc.
  unfold frame_column in Hc. apply in_map_iff in Hc.
  destruct Hc as [r [<- Hr]]. rewrite Forall_forall in H.
  specialize (H r Hr). unfold nonneg_row in H.
  destruct (nth_in_or_default j (values r) None) as [Hin|E];
    [|rewrite E; exact I].
  rewrite Forall_forall in H. now apply H.
Qed.

Lemma imputed_nonneg (df : list Row) :
  Forall nonneg_row df -> Forall nonneg_row (imputed df).
Proof.
  intro H. rewrite imputed_rows. apply Forall_forall. intros r' Hr'.
  apply in_map_iff in Hr'. destruct Hr' as [r [<- Hr]].
  unfold nonneg_row, fill_row. simpl.
  apply Forall_forall. intros c Hc.
  apply In_nth_error in Hc. destruct Hc as [j Hj].
  rewrite mapi_nth_error in Hj.
  destruct (nth_error (values r) j) as [c0|] eqn:E; [|discriminate].
  simpl in Hj. inversion Hj; subst; clear Hj.
  destruct c0 as [q|]; simpl.
  - rewrite Forall_forall in H. specialize (H r Hr). unfold nonneg_row in H.
    rewrite Forall_forall in H. exact (H _ (nth_error_In _ _ E)).
  - apply median_nonneg. apply frame_column_nonneg.
    apply Forall_forall. intros r0 Hr0. unfold partition_of in Hr0.
    apply filter_In in Hr0. rewrite Forall_forall in H. now apply H.
Qed.

Lemma In_mapi {A B : Type} (f : nat -> A -> B) (l : list A) (y : B) :
  In y (mapi f l) -> exists j x, In x l /\ y = f j x.
Proof.
  unfold mapi. intro H. apply in_map_iff in H.
  destruct H as [[j x] [<- Hp]]. exists j, x. split; [|reflexivity].
  eapply in_combine_r; eauto.
Qed.

Lemma cell_of_keeps (P : num -> bool) (columns : list string) (vals : list num)
    (c : string) :
  P NaN = true -> forallb P vals = true -> P (cell_of columns vals c) = true.
Proof.
  intro HN. revert vals.
  induction columns as [|c' columns IH]; intros [|v vals] H; simpl; auto.
  simpl in H. apply andb_prop in H. destruct H as [Hv Hvals].
  destruct (String.eqb c' c); auto.
Qed.

(** What holds of NaN and of every cell of every file, and is kept by the
    cast to float64, holds of every cell of the combined table. *)
Lemma pd_concat_keeps (P : num -> bool) (dataframes : list DataFrame)
    (combined : DataFrame) :
  P NaN = true ->
  (forall c, P c = true -> P (astype_float c) = true) ->
  Forall (fun d => forallb (fun r => forallb P (raw_values r)) (records d) = true)
         dataframes ->
  pd_concat dataframes = Ok combined ->
  forallb (fun r => forallb P (raw_values r)) (records combined) = true.
Proof.
  intros HN Hcast Hall E.
  destruct dataframes as [|d0 ds0]; [discriminate|].
  remember (d0 :: ds0) as dataframes eqn:Hd. clear Hd.
  unfold pd_concat in E.
  destruct dataframes as [|d ds]; [discriminate|].
  remember (d :: ds) as dfs eqn:Hd. clear Hd d ds d0 ds0.
  inversion E; subst combined; clear E. cbn [records].
  apply forallb_forall. intros r Hr. unfold common_dtype in Hr.
  apply in_map_iff in Hr. destruct Hr as [r0 [<- Hr0]]. cbn [raw_values].
  apply forallb_forall. intros c Hc. apply In_mapi in Hc.
  destruct Hc as (j & x & Hx & ->).
  assert (Px : P x = true).
  { apply in_flat_map in Hr0. destruct Hr0 as [d [Hd Hr0]].
    apply in_map_iff in Hr0. destruct Hr0 as [r1 [<- Hr1]].
    cbn [reindex raw_values] in Hx. apply in_map_iff in Hx.
    destruct Hx as [name [<- _]]. apply cell_of_keeps; [exact HN|].
    rewrite Forall_forall in Hall. specialize (Hall d Hd).
    rewrite forallb_forall in Hall. exact (Hall r1 Hr1). }
  destruct (int64_column j _); auto.
Qed.

(** X1.  Every numeric value that enters the standardization is NaN-free
    and not negative, provided no int64 cell of the input is the most negative
    int64 (the one value whose absolute value wraps around). *)
Theorem cleaned_values_nonneg (dataframes : list DataFrame) (df df' : list Row) :
  Forall (fun d => frame_ok d = true) dataframes ->
  Forall (fun d => forallb no_int64_min (records d) = true) dataframes ->
  aggregate dataframes = Ok df ->
  impute df = Ok df' ->
  Forall (fun r => Forall (fun c => exists q, c = Some q /\ 0 <= q) (values r))
         df'.
Proof.
  intros Hok Hmin Hagg Himp.
  pose proof (aggregate_complete _ _ Hagg) as Hc.
  apply impute_ok in Himp. destruct Himp as [_ ->].
  rewrite (imputed_complete df Hc).
  unfold aggregate in Hagg.
  destruct (pd_concat dataframes) as [combined|] eqn:Ec; [|discriminate].
  cbv beta iota delta [bind] in Hagg.
  inversion Hagg; subst; clear Hagg.
  assert (Hn : Forall nonneg_row (groupby_mean (sign_correct combined))).
  { apply groupby_mean_nonneg.
    - apply (pd_concat_keeps num_ok dataframes combined); auto.
      intros [z|q|]; reflexivity.
    - apply (pd_concat_keeps
               (fun c => match c with
                         | I64 z => negb (Z.eqb z Int64.min_value)
                         | _ => true
                         end) dataframes combined); auto.
      intros [z|q|]; reflexivity. }
  apply Forall_forall. intros r Hr. apply Forall_forall. intros c Hcell.
  specialize (Hc r Hr). unfold dropna in Hr. apply filter_In in Hr.
  destruct Hr as [Hr _]. rewrite Forall_forall in Hn. specialize (Hn r Hr).
  unfold nonneg_row in Hn. rewrite Forall_forall in Hn. specialize (Hn c Hcell).
  unfold complete in Hc. rewrite forallb_forall in Hc. specialize (Hc c Hcell).
  destruct c as [q|]; [|discriminate]. now exists q.
Qed.

Lemma cleaned_values_nonneg_witness :
  Forall (fun r => Forall (fun c => exists q, c = Some q /\ 0 <= q) (values r))
         [mkRow "Ana" "A" [Some (12 # 2)]].
Proof.
  apply (cleaned_values_nonneg [ana_file_1; ana_file_2]
           [mkRow "Ana" "A" [Some (12 # 2)]]).
  - repeat constructor.
  - repeat constructor.
  - reflexivity.
  - reflexivity.
Defined.

(** X2.  The median imputation keeps a table without negative values
    without negative values: a filled cell is a median of values that are
    not negative. *)
Theorem imputation_preserves_nonneg (df df' : list Row) :
  impute df = Ok df' ->
  Forall nonneg_row df -> Forall nonneg_row df'.
Proof.
  intros Himp H. apply impute_ok in Himp. destruct Himp as [_ ->].
  now apply imputed_nonneg.
Qed.

Lemma imputation_preserves_nonneg_witness :
  Forall nonneg_row
         [mkRow "a" "A" [Some 1; Some (10 # 2)];
          mkRow "b" "A" [Some (6 # 2); Some 4];
          mkRow "c" "B" [None; Some 9];
          mkRow "d" "A" [Some 5; Some 6]].
Proof.
  apply (imputation_preserves_nonneg gaps).
  - reflexivity.
  - unfold gaps, nonneg_row. simpl.
    repeat constructor; simpl; try exact I; discriminate.
Defined.

(** C10, at the input where the sign correction fails.  The absolute value
    of the most negative int64 wraps around to itself, so for
    [int64_min_file] the sign-corrected cells are still negative, and the
    value that the cleaning steps hand to the standardization is
    -9223372036854775808. *)
Theorem int64_min_stays_negative :
  map raw_values (records (sign_correct int64_min_file))
  = [[I64 (-9223372036854775808)]; [I64 (-9223372036854775808)]]
  /\
  exists v,
    aggregate [int64_min_file] = Ok [mkRow "Ana" "A" [Some v]] /\
    impute [mkRow "Ana" "A" [Some v]] = Ok [mkRow "Ana" "A" [Some v]] /\
    v == -9223372036854775808 # 1 /\
    v < 0.
Proof.
  split; [reflexivity|].
  eexists. repeat split; reflexivity.
Qed.

(** *** Loader (lines 16-21) *)

(** [pd.concat] aligns by column name: the header is the union, a missing
    column is NaN, and an int64 column that gets a NaN is cast to
    float64. *)
Example pd_concat_aligns_by_name :
  pd_concat [header_xy; header_yz]
  = Ok (mkDF ["x"; "y"; "z"]
             [mkRaw (Some "Ana") (Some "A") [F64 (-1); F64 2; NaN];
              mkRaw (Some "Luis") (Some "A") [NaN; F64 3; F64 4]]) /\
  pd_concat [header_yz; header_xy]
  = Ok (mkDF ["y"; "z"; "x"]
             [mkRaw (Some "Luis") (Some "A") [F64 3; F64 4; NaN];
              mkRaw (Some "Ana") (Some "A") [F64 2; NaN; F64 (-1)]]) /\
  pd_concat [header_xy] = Ok header_xy.
Proof.
  repeat split; reflexivity.
Qed.

(** C8.  With no CSV file in the directory, [pd.concat] of zero tables
    raises ValueError; nothing catches it, so the script ends with that
    exception and produces no report, whatever the numerical primitives
    are. *)
Theorem main_fails_without_files :
  pd_concat [] = Raise (ValueError "No objects to concatenate") /\
  forall np_sqrt linalg_svd,
    main np_sqrt linalg_svd [] = Raise (ValueError "No objects to concatenate").
Proof.
  split; reflexivity.
Qed.

(** *** Reporter: the top-3 ranking (lines 133-141) *)

Lemma insert_sorted (x : string * Q) (l : list (string * Q)) :
  StronglySorted (fun a b => snd a <= snd b) l ->
  StronglySorted (fun a b => snd a <= snd b) (insert score_leb x l).
Proof.
  induction 1 as [|y l Hs IH Hall]; simpl.
  - constructor; constructor.
  - unfold score_leb at 1. destruct (Qle_bool (snd x) (snd y)) eqn:E.
    + apply Qle_bool_iff in E. constructor.
      * now constructor.
      * constructor; [exact E|].
        eapply Forall_impl; [|exact Hall]. simpl. intros a Ha.
        now apply Qle_trans with (snd y).
    + assert (Hyx : snd y <= snd x).
      { destruct (Qlt_le_dec (snd y) (snd x)) as [H|H].
        - now apply Qlt_le_weak.
        - apply Qle_bool_iff in H. congruence. }
      constructor; [exact IH|].
      apply Forall_forall. intros a Ha. apply insert_In in Ha.
      destruct Ha as [->|Ha]; [exact Hyx|].
      rewrite Forall_forall in Hall. now apply Hall.
Qed.

Lemma isort_sorted (l : list (string * Q)) :
  StronglySorted (fun a b => snd a <= snd b) (isort score_leb l).
Proof.
  induction l as [|x l IH]; simpl; [constructor | now apply insert_sorted].
Qed.

Lemma sorted_snoc {A : Type} (R : A -> A -> Prop) (l : list A) (a : A) :
  StronglySorted R l -> Forall (fun b => R b a) l ->
  StronglySorted R (l ++ [a]).
Proof.
  induction 1 as [|x l Hs IH Hall]; intro Ha; simpl.
  - constructor; constructor.
  - inversion Ha; subst. constructor; [now apply IH|].
    apply Forall_app. split; [exact Hall | now constructor].
Qed.

Lemma sorted_rev {A : Type} (R : A -> A -> Prop) (l : list A) :
  StronglySorted R l -> StronglySorted (fun a b => R b a) (rev l).
Proof.
  induction 1 as [|x l Hs IH Hall]; simpl; [constructor|].
  apply sorted_snoc; [exact IH|].
  apply Forall_forall. intros b Hb. apply in_rev in Hb.
  rewrite Forall_forall in Hall. now apply Hall.
Qed.

Lemma sort_values_desc_descending (df : list (string * Q)) :
  descending (sort_values_desc df).
Proof.
  unfold descending, sort_values_desc.
  apply (sorted_rev (fun a b => snd a <= snd b)). apply isort_sorted.
Qed.

Lemma sort_values_desc_perm (df : list (string * Q)) :
  Permutation df (sort_values_desc df).
Proof.
  unfold sort_values_desc.
  rewrite <- Permutation_rev, <- isort_perm. apply Permutation_rev.
Qed.

(** In any arrangement of the table by descending score, the first row is
    a row of the student who alone has the highest score. *)
Lemma highest_is_first (df out : list (string * Q)) (x : string) (s : Q) :
  Permutation df out -> descending out ->
  In (x, s) df ->
  (forall p, In p df -> snd p <= s) ->
  (forall p, In p df -> snd p == s -> fst p = x) ->
  exists s' rest, out = (x, s') :: rest /\ s' == s.
Proof.
  intros Hp Hd Hin Hmax Huniq.
  destruct out as [|[y t] rest].
  - apply Permutation_sym, Permutation_nil in Hp. subst. contradiction.
  - assert (Hy : In (y, t) df).
    { apply (Permutation_in _ (Permutation_sym Hp)). now left. }
    assert (Hx : In (x, s) ((y, t) :: rest)) by exact (Permutation_in _ Hp Hin).
    assert (Hst : t == s).
    { apply Qle_antisym; [exact (Hmax _ Hy)|].
      destruct Hx as [E|Hx]; [inversion E; apply Qle_refl|].
      unfold descending in Hd. inversion Hd as [|? ? _ Hall]; subst.
      rewrite Forall_forall in Hall. exact (Hall _ Hx). }
    exists t, rest. split; [|exact Hst].
    f_equal. f_equal. exact (Huniq _ Hy Hst).
Qed.

(** C5, as amended.  When a record of student X has a first-component
    score that no record has more of and no record of another student
    equals, the top-3 report lists X first; and so does any arrangement of
    the table by descending score, whatever the order of equal scores. *)
Theorem top_student_is_first :
  (forall alumnos first_principal_component x s,
      In (x, s) (combine alumnos (List.concat first_principal_component)) ->
      (forall p, In p (combine alumnos (List.concat first_principal_component)) ->
                 snd p <= s) ->
      (forall p, In p (combine alumnos (List.concat first_principal_component)) ->
                 snd p == s -> fst p = x) ->
      exists s' rest,
        top_students alumnos first_principal_component = (x, s') :: rest /\
        s' == s)
  /\
  (forall df out x s,
      Permutation df out -> descending out ->
      In (x, s) df ->
      (forall p, In p df -> snd p <= s) ->
      (forall p, In p df -> snd p == s -> fst p = x) ->
      exists s' rest, firstn 3 out = (x, s') :: rest /\ s' == s).
Proof.
  assert (G : forall df out x s,
             Permutation df out -> descending out ->
             In (x, s) df ->
             (forall p, In p df -> snd p <= s) ->
             (forall p, In p df -> snd p == s -> fst p = x) ->
             exists s' rest, firstn 3 out = (x, s') :: rest /\ s' == s).
  { intros df out x s Hp Hd Hin Hmax Huniq.
    destruct (highest_is_first df out x s Hp Hd Hin Hmax Huniq)
      as [s' [rest [-> Hs]]].
    exists s', (firstn 2 rest). split; [reflexivity | exact Hs]. }
  split; [|exact G].
  intros alumnos fpc x s Hin Hmax Huniq. unfold top_students.
  eapply G; eauto using sort_values_desc_perm, sort_values_desc_descending.
Qed.

Lemma top_student_is_first_witness :
  exists s' rest,
    top_students clear_alumnos clear_scores = ("X", s') :: rest /\ s' == 5 # 2.
Proof.
  apply (proj1 top_student_is_first clear_alumnos clear_scores "X" (5 # 2)).
  - simpl. tauto.
  - intros p Hp. simpl in Hp.
    repeat (destruct Hp as [<-|Hp]; [simpl; unfold Qle; simpl; lia|]).
    contradiction.
  - intros p Hp. simpl in Hp.
    repeat (destruct Hp as [<-|Hp];
            [simpl; intro E; first [reflexivity | discriminate E]|]).
    contradiction.
Defined.

(** C5, as stated, fails on a tie.  In the table of [tie_alumnos] the
    students X and Y both have the maximum first-component score (no
    score is higher); the report lists Y first, not X; and in whatever
    order a sort leaves equal scores, the first row cannot be the row of
    both. *)
Lemma top_student_tie_counterexample :
  In ("X", 1) (combine tie_alumnos (List.concat tie_scores)) /\
  In ("Y", 1) (combine tie_alumnos (List.concat tie_scores)) /\
  (forall p, In p (combine tie_alumnos (List.concat tie_scores)) -> snd p <= 1) /\
  top_students tie_alumnos tie_scores = [("Y", 1); ("X", 1)] /\
  (forall out,
      Permutation (combine tie_alumnos (List.concat tie_scores)) out ->
      descending out ->
      exists p rest, firstn 3 out = p :: rest /\ (fst p <> "X" \/ fst p <> "Y")).
Proof.
  split; [simpl; tauto|]. split; [simpl; tauto|].
  split; [|split; [reflexivity|]].
  - intros p Hp. simpl in Hp.
    destruct Hp as [<-|[<-|[]]]; simpl; apply Qle_refl.
  - intros out Hp _. destruct out as [|p rest].
    + apply Permutation_sym, Permutation_nil in Hp. discriminate.
    + exists p, (firstn 2 rest). split; [reflexivity|].
      destruct (string_dec (fst p) "X") as [E|E]; [right | left; exact E].
      rewrite E. discriminate.
Qed.

(** *** Normalizer (lines 56-57) *)

Lemma valid_map (f : Q -> Q) (l : list cell) :
  valid (map (option_map f) l) = map f (valid l).
Proof.
  induction l as [|[q|] l IH]; simpl; [reflexivity | now rewrite IH | exact IH].
Qed.

Lemma sumQ_zero (l : list Q) :
  Forall (fun q => 0 <= q) l -> sumQ l == 0 -> Forall (fun q => q == 0) l.
Proof.
  induction 1 as [|q l Hq Hl IH]; simpl; intro Hs; [constructor|].
  pose proof (sumQ_nonneg l Hl) as Hn.
  constructor; [lra|]. apply IH. lra.
Qed.

Lemma nanmean_some (l : list cell) (m : Q) :
  nanmean l = Some m -> valid l <> [] /\ m = sumQ (valid l) / count (valid l).
Proof.
  unfold nanmean. destruct (valid l) as [|x v]; [discriminate|].
  intro H. inversion H. split; [discriminate | reflexivity].
Qed.

Lemma count_pos_nonempty (l : list Q) : l <> [] -> 0 < count l.
Proof.
  destruct l as [|x l]; [congruence | intros _; apply count_pos].
Qed.

(** In a column of zero variance every valid cell equals the mean. *)
Lemma zero_variance_constant (l : list cell) (m v x : Q) :
  nanmean l = Some m -> nanvar l = Some v -> v == 0 ->
  In (Some x) l -> x == m.
Proof.
  intros Hm Hv Hz Hx. unfold nanvar in Hv. rewrite Hm in Hv.
  apply nanmean_some in Hv. destruct Hv as [Hne Hv].
  rewrite valid_map in Hv, Hne.
  set (sq := fun x : Q => (x - m) * (x - m)) in *.
  assert (Hc : 0 < count (map sq (valid l))) by now apply count_pos_nonempty.
  assert (Hnn : Forall (fun q => 0 <= q) (map sq (valid l))).
  { apply Forall_forall. intros q Hq. apply in_map_iff in Hq.
    destruct Hq as [y [<- _]]. unfold sq.
    destruct (Qlt_le_dec (y - m) 0) as [H|H]; nra. }
  assert (Hs : sumQ (map sq (valid l)) == 0).
  { rewrite Hv in Hz.
    assert (E : sumQ (map sq (valid l))
                == sumQ (map sq (valid l)) / count (map sq (valid l))
                   * count (map sq (valid l))) by (field; lra).
    rewrite E, Hz. ring. }
  pose proof (sumQ_zero _ Hnn Hs) as Hall.
  rewrite Forall_forall in Hall.
  assert (Hsq : sq x == 0).
  { apply Hall. apply in_map. now apply valid_In. }
  unfold sq in Hsq. apply Qmult_integral in Hsq. lra.
Qed.

Lemma scaler_ok (np_sqrt : Q -> Q) (X Y : list (list cell)) :
  scaler_fit_transform np_sqrt X = Ok Y ->
  Y = map (fun row =>
             mapi (fun j x =>
                     standardize_cell x (nanmean (column j X))
                                      (scale_of np_sqrt (nanvar (column j X))))
                  row) X.
Proof.
  unfold scaler_fit_transform.
  destruct X as [|[|c r] X']; try discriminate.
  intro H. now inversion H.
Qed.

(** C3, as amended.  [StandardScaler] gives a column of zero variance the
    scale 1 and nothing is divided by zero: every valid cell x of such a
    column is standardized to the defined value (x - mean) / 1, which is 0
    in exact arithmetic (in float64 the rounding of the mean can leave a
    residue of the order of 1e-17 in its place). *)
Theorem zero_variance_column_is_zeroed
    (np_sqrt : Q -> Q) (X Y : list (list cell)) (j : nat) (v : Q) :
  scaler_fit_transform np_sqrt X = Ok Y ->
  nanvar (column j X) = Some v -> v == 0 ->
  scale_of np_sqrt (nanvar (column j X)) = Some 1 /\
  forall i row x,
    nth_error X i = Some row -> nth_error row j = Some (Some x) ->
    exists row' z m,
      nanmean (column j X) = Some m /\
      nth_error Y i = Some row' /\ nth_error row' j = Some (Some z) /\
      z = (x - m) / 1 /\ z == 0.
Proof.
  intros HY Hv Hz.
  assert (Hscale : scale_of np_sqrt (nanvar (column j X)) = Some 1).
  { rewrite Hv. unfold scale_of. now rewrite (Qeq_eq_bool _ _ Hz). }
  split; [exact Hscale|].
  intros i row x Hi Hj.
  apply scaler_ok in HY. subst Y.
  destruct (nanmean (column j X)) as [m|] eqn:Hm.
  2:{ unfold nanvar in Hv. rewrite Hm in Hv. discriminate. }
  eexists. exists ((x - m) / 1), m. split; [reflexivity|].
  split; [|split; [|split; [reflexivity|]]].
  - rewrite nth_error_map, Hi. reflexivity.
  - rewrite mapi_nth_error, Hj. simpl. rewrite Hm, Hscale. reflexivity.
  - assert (Hx : x == m).
    { apply (zero_variance_constant (column j X) m v x Hm Hv Hz).
      unfold column. apply in_map_iff. exists row. split.
      - now apply nth_error_nth.
      - eapply nth_error_In; eauto. }
    rewrite Hx. field.
Qed.

Lemma zero_variance_column_is_zeroed_witness :
  scale_of (fun q => q) (nanvar (column 0 [[Some 3]; [Some 3]])) = Some 1 /\
  forall i row x,
    nth_error [[Some 3]; [Some 3]] i = Some row ->
    nth_error row 0 = Some (Some x) ->
    exists row' z m,
      nanmean (column 0 [[Some 3]; [Some 3]]) = Some m /\
      nth_error [[Some (0 # 2)]; [Some (0 # 2)]] i = Some row' /\
      nth_error row' 0 = Some (Some z) /\
      z = (x - m) / 1 /\ z == 0.
Proof.
  apply (zero_variance_column_is_zeroed (fun q => q)
           [[Some 3]; [Some 3]] [[Some (0 # 2)]; [Some (0 # 2)]] 0%nat (0 # 32));
    reflexivity.
Defined.

(** C3, as stated, fails.  The only numeric column of [constant_file] has
    zero variance, and its standardization is defined: both cells are
    (3 - 3) / 1, that is 0, whatever the square root is. *)
Lemma zero_variance_counterexample :
  exists df v,
    aggregate [constant_file] = Ok df /\
    nanvar (column 0 (map values df)) = Some v /\ v == 0 /\
    forall np_sqrt,
      scaler_fit_transform np_sqrt (map values df)
      = Ok [[Some (0 # 2)]; [Some (0 # 2)]].
Proof.
  eexists. eexists. split; [reflexivity|].
  split; [reflexivity|]. split; [reflexivity|].
  intro np_sqrt. reflexivity.
Qed.

(** *** Reducer: shapes (lines 61-62, 97-98, 128-129) *)

Lemma finite_row_length (r : list cell) (r' : list Q) :
  finite_row r = Some r' -> List.length r' = List.length r.
Proof.
  revert r'. induction r as [|[q|] r IH]; simpl; intros r' H.
  - now inversion H.
  - destruct (finite_row r) as [r0|]; simpl in H; [|discriminate].
    inversion H. simpl. now rewrite (IH r0).
  - discriminate.
Qed.

Lemma all_finite_length (X : list (list cell)) (M : matrix) :
  all_finite X = Some M -> List.length M = List.length X.
Proof.
  revert M. induction X as [|r X IH]; simpl; intros M H.
  - now inversion H.
  - destruct (finite_row r) as [r'|]; [|discriminate].
    destruct (all_finite X) as [M'|]; [|discriminate].
    inversion H. simpl. now rewrite (IH M').
Qed.

(** What a successful [fit_transform] computed. *)
Lemma pca_ok (linalg_svd : matrix -> matrix * list Q * matrix)
    (n_components : option nat) (X : list (list cell)) (M : matrix)
    (res : PCA * matrix) :
  pca_fit_transform linalg_svd n_components X = Ok res ->
  all_finite X = Some M ->
  let k := match n_components with
           | None => Nat.min (List.length X) (List.length (hd [] X))
           | Some k => k
           end in
  (k <= Nat.min (List.length X) (List.length (hd [] X)))%nat /\
  res = pca_postprocess k (List.length X) (linalg_svd (center M)).
Proof.
  intros H HM. unfold pca_fit_transform in H.
  destruct X as [|[|c r] X']; try discriminate.
  rewrite HM in H. rewrite (all_finite_length _ _ HM) in H.
  cbv zeta. simpl hd.
  destruct (_ <=? _)%nat eqn:E; [|discriminate].
  apply Nat.leb_le in E. split; [exact E|]. now inversion H.
Qed.

Lemma In_firstn {A : Type} (k : nat) (l : list A) (x : A) :
  In x (firstn k l) -> In x l.
Proof.
  revert l. induction k as [|k IH]; intros [|y l]; simpl; try tauto.
  intros [E|H]; [now left | right; now apply IH].
Qed.

Lemma firstn_rows_length {A : Type} (k p : nat) (V : list (list A)) :
  Forall (fun v => List.length v = p) V ->
  Forall (fun v => List.length v = p) (firstn k V).
Proof.
  intro H. apply Forall_forall. intros v Hv.
  rewrite Forall_forall in H. apply H. eapply In_firstn; eauto.
Qed.

(** C7, as amended.  A successful [PCA(n_components=k).fit_transform] has
    one projected row per record with exactly k columns, and k
    eigenvectors, each as long as the number of features, where k is the
    requested rank (1 or 2), and for the full-rank call
    ([n_components=None]) k is the smaller of the number of records and
    the number of features. *)
Theorem projection_dimensions
    (linalg_svd : matrix -> matrix * list Q * matrix)
    (n_components : option nat) (X : list (list cell)) (M : matrix)
    (pca : PCA) (T : matrix) :
  pca_fit_transform linalg_svd n_components X = Ok (pca, T) ->
  all_finite X = Some M ->
  svd_shape (List.length X) (List.length (hd [] X)) (linalg_svd (center M)) ->
  n_components_ pca
  = match n_components with
    | None => Nat.min (List.length X) (List.length (hd [] X))
    | Some k => k
    end /\
  List.length T = List.length X /\
  Forall (fun row => List.length row = n_components_ pca) T /\
  List.length (components_ pca) = n_components_ pca /\
  Forall (fun v => List.length v = List.length (hd [] X)) (components_ pca).
Proof.
  intros H HM Hshape.
  destruct (pca_ok _ _ _ _ _ H HM) as [Hk Hres].
  set (k := match n_components with
            | None => Nat.min (List.length X) (List.length (hd [] X))
            | Some k => k
            end) in *.
  destruct (linalg_svd (center M)) as [[U Sigma] Vt].
  destruct Hshape as (HU & HUr & HS & HV & HVr).
  unfold pca_postprocess in Hres. inversion Hres; subst pca T; clear Hres.
  simpl. split; [reflexivity|]. split; [|split; [|split]].
  - now rewrite length_map.
  - apply Forall_forall. intros row Hrow. apply in_map_iff in Hrow.
    destruct Hrow as [u [<- Hu]].
    rewrite Forall_forall in HUr. specialize (HUr u Hu).
    rewrite length_map, length_combine, !length_firstn, HUr, HS. lia.
  - rewrite length_firstn, HV. lia.
  - now apply firstn_rows_length.
Qed.

Lemma projection_dimensions_witness :
  n_components_ square_pca = 2%nat /\
  List.length square_T = 4%nat /\
  Forall (fun row => List.length row = n_components_ square_pca) square_T /\
  List.length (components_ square_pca) = n_components_ square_pca /\
  Forall (fun v => List.length v = 2%nat) (components_ square_pca).
Proof.
  apply (projection_dimensions square_svd (Some 2%nat) square_X square_M
           square_pca square_T).
  - reflexivity.
  - reflexivity.
  - simpl. repeat split; repeat constructor.
Defined.

(** C7, as stated, fails for the full-rank call.  [wide_file] has four
    students and five numeric columns; its standardized table is [wide_X],
    of which [wide_svd] gives a decomposition.  The full-rank call keeps
    4 components, not 5: the projection has 4 columns and the script logs
    4 eigenvectors. *)
Lemma full_rank_counterexample :
  List.length (numeric_columns wide_file) = 5%nat /\
  all_finite wide_X = Some wide_M /\
  svd_check (center wide_M) (wide_svd (center wide_M)) = true /\
  (exists pca T,
      pca_fit_transform wide_svd None wide_X = Ok (pca, T) /\
      map (@List.length Q) T = [4; 4; 4; 4]%nat /\
      List.length (components_ pca) = 4%nat) /\
  (exists report,
      main sqrt_at_one wide_svd [wide_file] = Ok report /\
      List.length (eigenvectors report) = 4%nat).
Proof.
  split; [reflexivity|]. split; [reflexivity|].
  split; [vm_compute; reflexivity|].
  split.
  - eexists. eexists. split; [vm_compute; reflexivity|].
    split; reflexivity.
  - eexists. split; [vm_compute; reflexivity | reflexivity].
Qed.

(** *** Reducer: explained variance (lines 61-82) *)

Lemma npsum_some (l : list Q) : npsum (map Some l) = Some (sumQ l).
Proof.
  unfold npsum. induction l as [|x l IH]; simpl; [reflexivity|].
  now rewrite IH.
Qed.

Lemma fdiv_nonzero (x y : Q) : ~ y == 0 -> fdiv x y = Some (x / y).
Proof.
  intro H. unfold fdiv. destruct (Qeq_bool y 0) eqn:E; [|reflexivity].
  apply Qeq_bool_eq in E. contradiction.
Qed.

Lemma sumQ_pos (l : list Q) :
  Forall (fun q => 0 <= q) l -> Exists (fun q => 0 < q) l -> 0 < sumQ l.
Proof.
  intros Hn He. induction He as [x l Hx | x l He IH]; simpl;
    inversion Hn as [|? ? Hx0 Hl]; subst.
  - pose proof (sumQ_nonneg l Hl). lra.
  - specialize (IH Hl). lra.
Qed.

Lemma sumQ_scale (t : Q) (l : list Q) :
  ~ t == 0 -> sumQ (map (fun e => e / t) l) == sumQ l / t.
Proof.
  intro Ht. induction l as [|x l IH]; simpl.
  - field. exact Ht.
  - rewrite IH. field. exact Ht.
Qed.

Lemma square_mono (a b : Q) : 0 <= b -> b <= a -> b * b <= a * a.
Proof. intros. nra. Qed.

Lemma Qdiv_le_compat (a b d : Q) : 0 < d -> b <= a -> b / d <= a / d.
Proof.
  intros Hd H. unfold Qdiv. apply Qmult_le_compat_r; [exact H|].
  apply Qinv_le_0_compat. now apply Qlt_le_weak.
Qed.

Lemma ratios_nonincreasing (d t : Q) (Sigma : list Q) :
  0 < d -> 0 < t ->
  nonincreasing Sigma -> Forall (fun s => 0 <= s) Sigma ->
  nonincreasing (map (fun s => s * s / d / t) Sigma).
Proof.
  intros Hd Ht Hs. unfold nonincreasing in *.
  induction Hs as [|a l Hs IH Hall]; intro Hn; simpl; [constructor|].
  inversion Hn as [|? ? Ha Hl]; subst.
  constructor; [now apply IH|].
  apply Forall_forall. intros y Hy. apply in_map_iff in Hy.
  destruct Hy as [b [<- Hb]].
  rewrite Forall_forall in Hall, Hl.
  apply Qdiv_le_compat; [exact Ht|]. apply Qdiv_le_compat; [exact Hd|].
  apply square_mono; auto.
Qed.

Lemma ratios_nonneg (d t : Q) (Sigma : list Q) :
  0 < d -> 0 < t -> Forall (fun q => 0 <= q) (map (fun s => s * s / d / t) Sigma).
Proof.
  intros Hd Ht. apply Forall_forall. intros y Hy. apply in_map_iff in Hy.
  destruct Hy as [b [<- _]].
  apply Qdiv_nonneg; [|exact Ht]. apply Qdiv_nonneg; [|exact Hd].
  destruct (Qlt_le_dec b 0); nra.
Qed.

Lemma cumsum_from_some (acc : Q) (r : list Q) :
  cumsum_from (Some acc) (map Some r) = map Some (qcumsum_from acc r).
Proof.
  revert acc. induction r as [|x r IH]; intro acc; simpl; [reflexivity|].
  now rewrite IH.
Qed.

Lemma qcumsum_lower (acc : Q) (r : list Q) :
  Forall (fun q => 0 <= q) r -> Forall (fun c => acc <= c) (qcumsum_from acc r).
Proof.
  intro H. revert acc. induction H as [|x r Hx _ IH]; intro acc; simpl;
    constructor.
  - lra.
  - eapply Forall_impl; [|apply IH]. simpl. intros c Hc. lra.
Qed.

Lemma qcumsum_nondecreasing (acc : Q) (r : list Q) :
  Forall (fun q => 0 <= q) r -> nondecreasing (qcumsum_from acc r).
Proof.
  intro H. revert acc. unfold nondecreasing.
  induction H as [|x r Hx Hr IH]; intro acc; simpl; constructor.
  - apply IH.
  - now apply qcumsum_lower.
Qed.

Lemma qcumsum_last (acc : Q) (r : list Q) :
  r <> [] -> last (qcumsum_from acc r) 0 == acc + sumQ r.
Proof.
  revert acc. induction r as [|x r IH]; intros acc Hne; [congruence|].
  destruct r as [|y r].
  - simpl. ring.
  - change (last (qcumsum_from (acc + x) (y :: r)) 0 == acc + (x + sumQ (y :: r))).
    rewrite IH by discriminate. ring.
Qed.

Lemma firstn_length_all {A : Type} (l : list A) (k : nat) :
  k = List.length l -> firstn k l = l.
Proof. intros ->. apply firstn_all. Qed.

(** C6, as amended.  For the full-rank decomposition of a table of at
    least two records whose total variance is not zero (some singular
    value is positive), given the order in which the decomposition
    returns the singular values (descending, none negative): the
    explained-variance ratios are all defined and non-increasing, and
    their cumulative sum is non-decreasing and ends at 1. *)
Theorem variance_ratios_ordered
    (linalg_svd : matrix -> matrix * list Q * matrix)
    (X : list (list cell)) (M : matrix) (pca : PCA) (T : matrix) :
  pca_fit_transform linalg_svd None X = Ok (pca, T) ->
  all_finite X = Some M ->
  svd_shape (List.length X) (List.length (hd [] X)) (linalg_svd (center M)) ->
  svd_order (linalg_svd (center M)) ->
  (2 <= List.length X)%nat ->
  Exists (fun s => 0 < s) (snd (fst (linalg_svd (center M)))) ->
  exists r c,
    explained_variance_ratio_ pca = map Some r /\
    nonincreasing r /\
    cumsum (explained_variance_ratio_ pca) = map Some c /\
    nondecreasing c /\
    last c 0 == 1.
Proof.
  intros H HM Hshape Horder Hn Hpos.
  destruct (pca_ok _ _ _ _ _ H HM) as [_ Hres]. cbv zeta in Hres.
  destruct (linalg_svd (center M)) as [[U Sigma] Vt].
  destruct Hshape as (_ & _ & HS & _ & _).
  destruct Horder as [Hdesc Hnn]. simpl in Hpos.
  set (d := inject_Z (Z.of_nat (List.length X)) - 1) in *.
  assert (Hd : 0 < d).
  { unfold d. assert (E : 2 <= inject_Z (Z.of_nat (List.length X))).
    { change 2 with (inject_Z 2). rewrite <- Zle_Qle. lia. }
    lra. }
  assert (Hev : map (fun s => fdiv (s * s) d) Sigma
                = map Some (map (fun s => s * s / d) Sigma)).
  { rewrite map_map. apply map_ext. intro s. apply fdiv_nonzero. lra. }
  set (t := sumQ (map (fun s => s * s / d) Sigma)) in *.
  assert (Ht : 0 < t).
  { unfold t. apply sumQ_pos.
    - apply Forall_forall. intros y Hy. apply in_map_iff in Hy.
      destruct Hy as [b [<- _]]. apply Qdiv_nonneg; [|exact Hd].
      destruct (Qlt_le_dec b 0); nra.
    - apply Exists_exists in Hpos. destruct Hpos as [s [Hs Hs0]].
      apply Exists_exists. exists (s * s / d). split.
      + apply in_map_iff. now exists s.
      + apply Qlt_shift_div_l; [exact Hd|]. nra. }
  unfold pca_postprocess in Hres. fold d in Hres.
  rewrite Hev, npsum_some in Hres. fold t in Hres.
  cbv beta iota in Hres.
  assert (Hratio : map (fun ev : option Q =>
                          match ev with
                          | Some e => fdiv e t
                          | None => None
                          end) (map Some (map (fun s => s * s / d) Sigma))
                   = map Some (map (fun s => s * s / d / t) Sigma)).
  { rewrite !map_map. apply map_ext. intro s. apply fdiv_nonzero. lra. }
  rewrite Hratio in Hres.
  inversion Hres; subst pca T; clear Hres. simpl.
  rewrite firstn_length_all by (now rewrite !length_map, HS).
  set (r := map (fun s => s * s / d / t) Sigma).
  exists r, (qcumsum_from 0 r).
  assert (Hr : Forall (fun q => 0 <= q) r) by now apply ratios_nonneg.
  split; [reflexivity|]. split; [now apply ratios_nonincreasing|].
  split; [apply cumsum_from_some|]. split; [now apply qcumsum_nondecreasing|].
  assert (Hne : r <> []).
  { unfold r. destruct Sigma; [inversion Hpos | discriminate]. }
  rewrite qcumsum_last by exact Hne.
  assert (E : sumQ r == t / t).
  { unfold r. rewrite <- (map_map (fun s => s * s / d) (fun e => e / t)).
    apply sumQ_scale. lra. }
  rewrite E. field. lra.
Qed.

Lemma variance_ratios_ordered_witness :
  exists r c,
    explained_variance_ratio_ square_pca = map Some r /\
    nonincreasing r /\
    cumsum (explained_variance_ratio_ square_pca) = map Some c /\
    nondecreasing c /\
    last c 0 == 1.
Proof.
  apply (variance_ratios_ordered square_svd square_X square_M square_pca square_T).
  - reflexivity.
  - reflexivity.
  - simpl. repeat split; repeat constructor.
  - simpl. split; repeat constructor; discriminate.
  - simpl. lia.
  - simpl. left. reflexivity.
Defined.

(** C6, as stated, fails when the total variance is zero.  The two
    students of [identical_file] have the same values, the standardized
    table is zero (of which [zero_svd] gives a decomposition), and the
    script logs undefined ratios and an undefined cumulative sum, which
    does not end at 1. *)
Lemma variance_ratio_counterexample :
  exists df,
    aggregate [identical_file] = Ok df /\
    forall np_sqrt,
      (exists N M,
          scaler_fit_transform np_sqrt (map values df) = Ok N /\
          all_finite N = Some M /\
          svd_check (center M) (zero_svd (center M)) = true) /\
      main np_sqrt zero_svd [identical_file]
      = Ok (mkReport [[1; 0]; [0; 1]] [Some 0; Some 0]
                     [None; None] [None; None] [None; None] [None; None]
                     [("Ana", 0); ("Luis", 0)]).
Proof.
  eexists. split; [reflexivity|].
  intro np_sqrt. split.
  - eexists. eexists. split; [reflexivity|].
    split; [reflexivity | vm_compute; reflexivity].
  - reflexivity.
Qed.

(** *** Normalizer: mean 0 and variance 1 (lines 56-57) *)

Lemma valid_somes (xs : list Q) : valid (map Some xs) = xs.
Proof.
  induction xs as [|x xs IH]; simpl; [reflexivity | now rewrite IH].
Qed.

Lemma nanmean_somes (xs : list Q) :
  xs <> [] -> nanmean (map Some xs) = Some (sumQ xs / count xs).
Proof.
  intro H. unfold nanmean. rewrite valid_somes.
  destruct xs; [congruence | reflexivity].
Qed.

Lemma count_cons (x : Q) (l : list Q) : count (x :: l) == 1 + count l.
Proof.
  unfold count. simpl List.length. rewrite Nat2Z.inj_succ.
  unfold Z.succ. rewrite inject_Z_plus. ring.
Qed.









(** ** Further properties of the script *)

(** *** Sorting with a total, transitive order *)

Section SortedInsertion.
Context {A : Type}.
Variable leb : A -> A -> bool.
Hypothesis leb_total : forall x y, leb x y = true \/ leb y x = true.
Hypothesis leb_trans : forall x y z, leb x y = true -> leb y z = true -> leb x z = true.
Hypothesis leb_antisym : forall x y, leb x y = true -> leb y x = true -> x = y.

Lemma insert_sorted_total (x : A) (l : list A) :
  StronglySorted (fun a b => leb a b = true) l ->
  StronglySorted (fun a b => leb a b = true) (insert leb x l).
Proof.
  induction 1 as [|y l Hs IH Hall]; simpl.
  - constructor; constructor.
  - destruct (leb x y) eqn:E.
    + constructor; [now constructor|].
      constructor; [exact E|].
      eapply Forall_impl; [|exact Hall]. simpl. intros a Ha.
      now apply leb_trans with y.
    + assert (Hyx : leb y x = true).
      { destruct (leb_total x y) as [H|H]; [congruence | exact H]. }
      constructor; [exact IH|].
      apply Forall_forall. intros a Ha. apply insert_In in Ha.
      destruct Ha as [->|Ha]; [exact Hyx|].
      rewrite Forall_forall in Hall. now apply Hall.
Qed.

Lemma isort_sorted_total (l : list A) :
  StronglySorted (fun a b => leb a b = true) (isort leb l).
Proof.
  induction l as [|x l IH]; simpl; [constructor | now apply insert_sorted_total].
Qed.

(** A sorted list without repetition is determined by its elements. *)
Lemma sorted_nodup_unique (l1 l2 : list A) :
  StronglySorted (fun a b => leb a b = true) l1 -> NoDup l1 ->
  StronglySorted (fun a b => leb a b = true) l2 -> NoDup l2 ->
  (forall x, In x l1 <-> In x l2) ->
  l1 = l2.
Proof.
  intros S1. revert l2.
  induction S1 as [|x1 l1 S1 IH H1]; intros l2 N1 S2 N2 Hin.
  - destruct l2 as [|x2 l2]; [reflexivity|].
    exfalso. apply (proj2 (Hin x2)). now left.
  - destruct l2 as [|x2 l2].
    + exfalso. apply (proj1 (Hin x1)). now left.
    + inversion S2 as [|? ? S2' H2]; subst.
      inversion N1 as [|? ? Hn1 N1']; subst.
      inversion N2 as [|? ? Hn2 N2']; subst.
      rewrite Forall_forall in H1, H2.
      assert (E : x1 = x2).
      { destruct (proj1 (Hin x1) (or_introl eq_refl)) as [E|Hx1]; [now symmetry|].
        destruct (proj2 (Hin x2) (or_introl eq_refl)) as [E|Hx2]; [exact E|].
        apply leb_antisym; [now apply H1 | now apply H2]. }
      subst x2. f_equal. apply IH; try assumption.
      intro y. split; intro Hy.
      * destruct (proj1 (Hin y) (or_intror Hy)) as [E|H]; [|exact H].
        subst y. contradiction.
      * destruct (proj2 (Hin y) (or_intror Hy)) as [E|H]; [|exact H].
        subst y. contradiction.
Qed.

Lemma filter_sorted (p : A -> bool) (l : list A) :
  StronglySorted (fun a b => leb a b = true) l ->
  StronglySorted (fun a b => leb a b = true) (filter p l).
Proof.
  induction 1 as [|x l Hs IH Hall]; simpl; [constructor|].
  destruct (p x); [|exact IH].
  constructor; [exact IH|].
  apply Forall_forall. intros y Hy. apply filter_In in Hy.
  rewrite Forall_forall in Hall. now apply Hall.
Qed.

End SortedInsertion.

(** *** Imputation locality (lines 46-49) *)

Lemma median_sorts (l : list cell) :
  StronglySorted Qle (isort Qle_bool (valid l)).
Proof.
  assert (H : StronglySorted (fun a b => Qle_bool a b = true)
                             (isort Qle_bool (valid l))).
  { apply isort_sorted_total.
    - intros x y. destruct (Qlt_le_dec x y) as [L|L].
      + left. apply Qle_bool_iff. now apply Qlt_le_weak.
      + right. now apply Qle_bool_iff.
    - intros x y z Hxy Hyz. apply Qle_bool_iff in Hxy, Hyz.
      apply Qle_bool_iff. now apply Qle_trans with y. }
  induction H as [|x v _ IH Hall]; constructor; [exact IH|].
  eapply Forall_impl; [|exact Hall]. intros y Hy. now apply Qle_bool_iff.
Qed.

(** C1.  Imputation locality.  Take a cell that is NaN before lines 46-49,
    in column j of a row r, and let vs be the valid (non-NaN) values of
    column j in the rows that have r's [grupo], in ascending order.
    Afterwards the cell holds the middle value of vs when their number is
    odd, the mean of the two middle values when it is even, and stays NaN
    when there is none; the row keeps its identifiers.  A cell that holds
    a value keeps it.  And the rows of [grupo] g after the imputation
    depend on nothing but the rows of g before it: two tables with the
    same rows of grupo g get the same imputed rows of grupo g, whatever
    their other rows hold. *)
Theorem imputation_is_local :
  (forall (df : list Row) (i j : nat) (r : Row),
      nth_error df i = Some r ->
      nth_error (values r) j = Some None ->
      exists df' r' vs,
        impute df = Ok df' /\
        nth_error df' i = Some r' /\
        alumno r' = alumno r /\ grupo r' = grupo r /\
        Permutation vs
          (valid (map (fun s => nth j (values s) None)
                      (filter (fun s => String.eqb (grupo s) (grupo r)) df))) /\
        StronglySorted Qle vs /\
        (vs = [] -> nth_error (values r') j = Some None) /\
        (Nat.odd (List.length vs) = true ->
         nth_error (values r') j
         = Some (Some (nth (List.length vs / 2) vs 0))) /\
        (vs <> [] -> Nat.even (List.length vs) = true ->
         nth_error (values r') j
         = Some (Some ((nth (List.length vs / 2 - 1) vs 0
                        + nth (List.length vs / 2) vs 0) / 2))))
  /\
  (forall (df df' : list Row) (i j : nat) (r : Row) (q : Q),
      impute df = Ok df' ->
      nth_error df i = Some r ->
      nth_error (values r) j = Some (Some q) ->
      exists r', nth_error df' i = Some r' /\
                 nth_error (values r') j = Some (Some q))
  /\
  (forall (df1 df2 df1' df2' : list Row) (g : string),
      filter (fun s => String.eqb (grupo s) g) df1
      = filter (fun s => String.eqb (grupo s) g) df2 ->
      impute df1 = Ok df1' -> impute df2 = Ok df2' ->
      filter (fun s => String.eqb (grupo s) g) df1'
      = filter (fun s => String.eqb (grupo s) g) df2').
Proof.
  split; [|split].
  - intros df i j r Hi Hj.
    set (col := map (fun s => nth j (values s) None)
                    (filter (fun s => String.eqb (grupo s) (grupo r)) df)).
    exists (imputed df), (fill_row (partition_of (grupo r) df) r),
           (isort Qle_bool (valid col)).
    split; [apply impute_has_cells; eapply has_cells_row;
            eauto using nth_error_In|].
    rewrite imputed_rows, nth_error_map, Hi. simpl.
    repeat (split; [reflexivity|]).
    split; [apply Permutation_sym, isort_perm|].
    split; [apply median_sorts|].
    rewrite mapi_nth_error, Hj. simpl.
    change (frame_column j (partition_of (grupo r) df)) with col.
    unfold median.
    set (v := isort Qle_bool (valid col)).
    destruct (List.length v) as [|n] eqn:En.
    + repeat split; try reflexivity; try discriminate.
      intros Hne _. destruct v; [congruence | discriminate].
    + assert (Hv : v <> []) by (intro E; rewrite E in En; discriminate).
      change (fst (Nat.divmod n 1 0 0)) with (S n / 2)%nat.
      unfold Nat.odd.
      destruct (Nat.even (S n)) eqn:Ev; repeat split;
        try reflexivity; try discriminate; intros; congruence.
  - intros df df' i j r q H Hi Hj. apply impute_ok in H. destruct H as [_ ->].
    exists (fill_row (partition_of (grupo r) df) r).
    rewrite imputed_rows, nth_error_map, Hi. simpl.
    split; [reflexivity|]. now rewrite mapi_nth_error, Hj.
  - intros df1 df2 df1' df2' g H H1 H2.
    apply impute_ok in H1, H2. destruct H1 as [_ ->], H2 as [_ ->].
    fold (partition_of g df1) (partition_of g df2) in H.
    fold (partition_of g (imputed df1)) (partition_of g (imputed df2)).
    now rewrite !partition_of_imputed, H.
Qed.

Lemma imputation_is_local_witness :
  impute gaps = Ok [mkRow "a" "A" [Some 1; Some (10 # 2)];
                    mkRow "b" "A" [Some (6 # 2); Some 4];
                    mkRow "c" "B" [None; Some 9];
                    mkRow "d" "A" [Some 5; Some 6]] /\
  exists df' r' m,
    impute gaps = Ok df' /\
    nth_error df' 0 = Some r' /\
    alumno r' = "a" /\ grupo r' = "A" /\
    nth_error (values r') 1 = Some (Some m) /\ m == 5.
Proof.
  split; [reflexivity|].
  destruct (proj1 imputation_is_local gaps 0%nat 1%nat
              (mkRow "a" "A" [Some 1; None]) eq_refl eq_refl)
    as (df' & r' & vs & Hdf & Hr & Ha & Hg & Hp & Hs & _ & _ & Hev).
  exists df', r'. simpl in Hp.
  assert (Hvs : vs = [4; 6]).
  { apply Permutation_sym, Permutation_length_2_inv in Hp.
    destruct Hp as [->| ->]; [reflexivity|].
    inversion Hs as [|? ? _ Hall]; subst. inversion Hall as [|? ? Hle _]; subst.
    unfold Qle in Hle. simpl in Hle. lia. }
  subst vs. specialize (Hev ltac:(discriminate) eq_refl). simpl in Hev, Ha, Hg.
  exists ((4 + 6) / 2). repeat split; assumption.
Defined.

(** *** The order of the categories *)

Lemma ascii_compare_refl (c : Ascii.ascii) : Ascii.compare c c = Eq.
Proof. unfold Ascii.compare. apply N.compare_refl. Qed.

Lemma ascii_compare_lt_trans (a b c : Ascii.ascii) :
  Ascii.compare a b = Lt -> Ascii.compare b c = Lt -> Ascii.compare a c = Lt.
Proof.
  unfold Ascii.compare. rewrite !N.compare_lt_iff. apply N.lt_trans.
Qed.

Lemma string_compare_lt_trans (a b c : string) :
  String.compare a b = Lt -> String.compare b c = Lt -> String.compare a c = Lt.
Proof.
  revert b c. induction a as [|x a IH]; intros [|y b] [|z c]; simpl;
    try discriminate; try reflexivity.
  destruct (Ascii.compare x y) eqn:Exy; try discriminate;
    destruct (Ascii.compare y z) eqn:Eyz; try discriminate; intros H1 H2.
  - apply Ascii.compare_eq_iff in Exy, Eyz. subst.
    rewrite ascii_compare_refl. now apply (IH b c).
  - apply Ascii.compare_eq_iff in Exy. subst. now rewrite Eyz.
  - apply Ascii.compare_eq_iff in Eyz. subst. now rewrite Exy.
  - now rewrite (ascii_compare_lt_trans x y z).
Qed.

Lemma string_leb_trans (a b c : string) :
  String.leb a b = true -> String.leb b c = true -> String.leb a c = true.
Proof.
  unfold String.leb.
  destruct (String.compare a b) eqn:Eab; try discriminate;
    destruct (String.compare b c) eqn:Ebc; try discriminate; intros _ _.
  - apply String.compare_eq_iff in Eab. subst. now rewrite Ebc.
  - apply String.compare_eq_iff in Eab. subst. now rewrite Ebc.
  - apply String.compare_eq_iff in Ebc. subst. now rewrite Eab.
  - now rewrite (string_compare_lt_trans a b c).
Qed.

Lemma categories_sorted (keys : list (option string)) :
  StronglySorted (fun a b => String.leb a b = true) (categories keys).
Proof.
  apply isort_sorted_total; [apply String.leb_total | apply string_leb_trans].
Qed.

Lemma categories_NoDup (keys : list (option string)) : NoDup (categories keys).
Proof.
  unfold categories.
  eapply Permutation_NoDup; [apply isort_perm | apply NoDup_nodup].
Qed.

(** The categories depend on the set of keys only. *)
Lemma categories_same_keys (keys1 keys2 : list (option string)) :
  (forall a, In (Some a) keys1 <-> In (Some a) keys2) ->
  categories keys1 = categories keys2.
Proof.
  intro H.
  apply (sorted_nodup_unique String.leb String.leb_antisym);
    auto using categories_sorted, categories_NoDup.
  intro a. now rewrite !categories_In.
Qed.

(** *** The shape of the aggregated table (lines 37-39) *)

Lemma NoDup_product_keys (df : DataFrame) (As Gs : list string) :
  NoDup As -> NoDup Gs ->
  NoDup (map key (flat_map (fun a => map (mean_row df a) Gs) As)).
Proof.
  intros HA HG. induction HA as [|a As Ha HA IH]; simpl; [constructor|].
  rewrite map_app. apply NoDup_app.
  - rewrite map_map. unfold key. simpl.
    apply Finite.Injective_map_NoDup; [|exact HG].
    intros g1 g2 E. now inversion E.
  - exact IH.
  - intros k H1 H2. rewrite map_map in H1. apply in_map_iff in H1.
    destruct H1 as [g [<- _]].
    apply in_map_iff in H2. destruct H2 as [r [Hk Hr]].
    apply in_flat_map in Hr. destruct Hr as [a' [Ha' Hr]].
    apply in_map_iff in Hr. destruct Hr as [g' [<- _]].
    unfold key in Hk. simpl in Hk. inversion Hk; subst. contradiction.
Qed.

Lemma dropna_keys_NoDup (df : list Row) :
  NoDup (map key df) -> NoDup (map key (dropna df)).
Proof.
  unfold dropna. intro H.
  induction df as [|r df IH]; simpl; [constructor|].
  simpl in H. apply NoDup_cons_iff in H. destruct H as [Hr Hdf].
  destruct (complete r); simpl; [|now apply IH].
  apply NoDup_cons; [|now apply IH].
  rewrite in_map_iff. intros [s [E Hs]]. apply filter_In in Hs.
  apply Hr. rewrite in_map_iff. exists s. tauto.
Qed.

Lemma cleaned_rows (df : DataFrame) (r : Row) :
  In r (cleaned df) <->
  In (alumno r) (categories (map raw_alumno (records df))) /\
  In (grupo r) (categories (map raw_grupo (records df))) /\
  r = mean_row (sign_correct df) (alumno r) (grupo r) /\
  complete r = true.
Proof.
  unfold cleaned, dropna, groupby_mean. rewrite filter_In, in_flat_map.
  simpl. rewrite !map_map. simpl. split.
  - intros [[a [Ha Hr]] Hc]. apply in_map_iff in Hr.
    destruct Hr as [g [<- Hg]]. simpl. tauto.
  - intros (Ha & Hg & E & Hc). split; [|exact Hc].
    exists (alumno r). split; [exact Ha|].
    apply in_map_iff. exists (grupo r). split; [now symmetry | exact Hg].
Qed.

Lemma cleaned_rectangular (df : DataFrame) :
  Forall (fun r =>
            List.length (values r) = List.length (numeric_columns df) /\
            Forall (fun c => is_defined c = true) (values r))
         (cleaned df).
Proof.
  apply Forall_forall. intros r Hr.
  apply cleaned_rows in Hr. destruct Hr as (_ & _ & E & Hc). split.
  - rewrite E. unfold mean_row. simpl. now rewrite length_map, length_seq.
  - apply Forall_forall. intros c Hcell. unfold complete in Hc.
    rewrite forallb_forall in Hc. now apply Hc.
Qed.

(** X4.  The table after the groupby-mean and the row drop has at most
    one row per (alumno, grupo) pair, and every row has one defined value
    per numeric column. *)
Theorem cleaned_table_is_keyed_and_rectangular (df : DataFrame) :
  NoDup (map key (cleaned df)) /\
  Forall (fun r =>
            List.length (values r) = List.length (numeric_columns df) /\
            Forall (fun c => is_defined c = true) (values r))
         (cleaned df).
Proof.
  split; [|apply cleaned_rectangular].
  unfold cleaned. apply dropna_keys_NoDup.
  unfold groupby_mean. apply NoDup_product_keys; apply categories_NoDup.
Qed.

Lemma nanmean_defined (l : list cell) :
  is_defined (nanmean l) = true <-> exists q, In (Some q) l.
Proof.
  unfold nanmean. split.
  - destruct (valid l) as [|x v] eqn:E; [discriminate|]. intros _.
    exists x. apply valid_In. rewrite E. now left.
  - intros [q Hq]. apply valid_In in Hq.
    destruct (valid l); [contradiction | reflexivity].
Qed.

Lemma as_float_abs_defined (c : num) :
  (exists q, as_float (np_abs c) = Some q) <-> c <> NaN.
Proof.
  destruct c; simpl; split; intro H; try discriminate; eauto.
  - destruct H as [q H]. discriminate.
  - congruence.
Qed.

(** X5.  A pair of categories has a row after the row drop exactly when,
    in every numeric column, some record of the pair has a value. *)
Theorem pair_kept_iff_every_column_has_a_value (df : DataFrame) (a g : string) :
  (exists r, In r (cleaned df) /\ alumno r = a /\ grupo r = g)
  <->
  In (Some a) (map raw_alumno (records df)) /\
  In (Some g) (map raw_grupo (records df)) /\
  forall j, (j < List.length (numeric_columns df))%nat ->
            exists rec, In rec (group_records df a g) /\
                        nth j (raw_values rec) NaN <> NaN.
Proof.
  split.
  - intros [r [Hr [<- <-]]]. apply cleaned_rows in Hr.
    destruct Hr as (Ha & Hg & E & Hc).
    rewrite categories_In in Ha, Hg. split; [exact Ha|]. split; [exact Hg|].
    intros j Hj. rewrite E in Hc. unfold complete, mean_row in Hc. simpl in Hc.
    rewrite forallb_forall in Hc.
    assert (Hd : is_defined
                   (nanmean (raw_column j
                               (group_records (sign_correct df) (alumno r) (grupo r))))
                 = true).
    { apply Hc. apply in_map_iff. exists j. split; [reflexivity|].
      apply in_seq. lia. }
    apply nanmean_defined in Hd. destruct Hd as [q Hq].
    rewrite group_records_sign_correct, raw_column_abs in Hq.
    apply in_map_iff in Hq. destruct Hq as [rec [Hrec Hin]].
    exists rec. split; [exact Hin|].
    apply as_float_abs_defined. now exists q.
  - intros (Ha & Hg & Hcols).
    exists (mean_row (sign_correct df) a g). split; [|simpl; tauto].
    apply cleaned_rows. simpl. rewrite !categories_In.
    split; [exact Ha|]. split; [exact Hg|]. split; [reflexivity|].
    unfold complete. simpl. apply forallb_forall. intros c Hc.
    apply in_map_iff in Hc. destruct Hc as [j [<- Hj]].
    apply in_seq in Hj. apply nanmean_defined.
    destruct (Hcols j) as [rec [Hin Hne]]; [lia|].
    apply as_float_abs_defined in Hne. destruct Hne as [q Hq].
    exists q. rewrite group_records_sign_correct, raw_column_abs.
    apply in_map_iff. now exists rec.
Qed.

(** *** Sign correction keeps the magnitude (lines 27-28) *)

Lemma np_abs_nonneg_id (c : num) :
  num_ok c = true -> raw_nonneg c -> np_abs c = c.
Proof.
  destruct c as [z|[n d]|]; simpl; intros Hok Hn; [| |reflexivity].
  - f_equal. rewrite int64_abs_small; [lia | exact Hok|].
    unfold Int64.min_value. lia.
  - f_equal. unfold Qabs. f_equal. unfold Qle in Hn. simpl in Hn. lia.
Qed.

(** X6.  Sign correction changes the sign only: the float value of a
    corrected cell is the absolute value of the cell's value (for every
    int64 but the most negative), identifiers are untouched, and a table
    without negative values is left exactly as it is. *)
Theorem sign_correct_changes_sign_only :
  (forall c,
      num_ok c = true ->
      c <> I64 Int64.min_value ->
      as_float (np_abs c) = option_map Qabs (as_float c))
  /\
  (forall df,
      map raw_alumno (records (sign_correct df)) = map raw_alumno (records df) /\
      map raw_grupo (records (sign_correct df)) = map raw_grupo (records df))
  /\
  (forall df,
      frame_ok df = true ->
      Forall (fun r => Forall raw_nonneg (raw_values r)) (records df) ->
      sign_correct df = df).
Proof.
  split; [|split].
  - intros [z|q|] Hok Hne; simpl; try reflexivity.
    rewrite int64_abs_small; [| exact Hok | congruence].
    rewrite of_int_abs. reflexivity.
  - intro df. unfold sign_correct. simpl. rewrite !map_map. simpl. tauto.
  - intros [cols recs] Hok Hn. unfold sign_correct. simpl in *. f_equal.
    transitivity (map (fun r : RawRecord => r) recs); [|apply map_id].
    apply map_ext_in. intros [a g vs] Hr. unfold abs_record. simpl. f_equal.
    transitivity (map (fun c : num => c) vs); [|apply map_id].
    apply map_ext_in. intros c Hc.
    unfold frame_ok in Hok. simpl in Hok. rewrite forallb_forall in Hok.
    specialize (Hok _ Hr). unfold record_ok in Hok. simpl in Hok.
    rewrite forallb_forall in Hok.
    rewrite Forall_forall in Hn. specialize (Hn _ Hr). simpl in Hn.
    rewrite Forall_forall in Hn.
    apply np_abs_nonneg_id; auto.
Qed.

Lemma sign_correct_changes_sign_only_witness :
  as_float (np_abs (I64 (-7))) = option_map Qabs (as_float (I64 (-7))) /\
  sign_correct nonneg_file = nonneg_file.
Proof.
  split.
  - apply (proj1 sign_correct_changes_sign_only (I64 (-7)));
      [reflexivity | discriminate].
  - apply (proj2 (proj2 sign_correct_changes_sign_only) nonneg_file).
    + reflexivity.
    + unfold nonneg_file. simpl.
      repeat constructor; simpl; try exact I; try lia; discriminate.
Defined.

(** *** The filled value lies among the partition's values (lines 46-49) *)

Lemma nth_sorted_In (l : list cell) (k : nat) :
  (k < List.length (isort Qle_bool (valid l)))%nat ->
  In (Some (nth k (isort Qle_bool (valid l)) 0)) l.
Proof.
  intro H. apply valid_In. apply (isort_In Qle_bool). now apply nth_In.
Qed.

Lemma median_between (l : list cell) (m : Q) :
  median l = Some m ->
  exists lo hi, In (Some lo) l /\ In (Some hi) l /\ lo <= m /\ m <= hi.
Proof.
  unfold median.
  set (v := isort Qle_bool (valid l)).
  destruct (List.length v) as [|n] eqn:En; [discriminate|].
  destruct (Nat.even (S n)) eqn:Ev; intros [= <-];
    change (fst (Nat.divmod n 1 0 0)) with (S n / 2)%nat.
  - assert (H1 : (S n / 2 - 1 < List.length v)%nat).
    { rewrite En. pose proof (Nat.div_lt (S n) 2). lia. }
    assert (H2 : (S n / 2 < List.length v)%nat).
    { rewrite En. apply Nat.div_lt; lia. }
    pose proof (nth_sorted_In l _ H1) as I1.
    pose proof (nth_sorted_In l _ H2) as I2.
    fold v in I1, I2.
    set (a := nth (S n / 2 - 1) v 0) in *. set (b := nth (S n / 2) v 0) in *.
    destruct (Qlt_le_dec a b) as [Hab|Hba].
    + exists a, b. repeat split; try assumption.
      * apply Qle_shift_div_l; [reflexivity | lra].
      * apply Qle_shift_div_r; [reflexivity | lra].
    + exists b, a. repeat split; try assumption.
      * apply Qle_shift_div_l; [reflexivity | lra].
      * apply Qle_shift_div_r; [reflexivity | lra].
  - assert (H2 : (S n / 2 < List.length v)%nat).
    { rewrite En. apply Nat.div_lt; lia. }
    pose proof (nth_sorted_In l _ H2) as I2. fold v in I2.
    exists (nth (S n / 2) v 0), (nth (S n / 2) v 0).
    repeat split; try assumption; apply Qle_refl.
Qed.

(** X7.  A value that the imputation fills in lies between two values
    observed in the same column and the same [grupo] partition. *)
Theorem filled_value_within_partition_range
    (df df' : list Row) (i j : nat) (r r' : Row) (m : Q) :
  impute df = Ok df' ->
  nth_error df i = Some r ->
  nth_error (values r) j = Some None ->
  nth_error df' i = Some r' ->
  nth_error (values r') j = Some (Some m) ->
  exists r1 r2 lo hi,
    In r1 df /\ grupo r1 = grupo r /\ nth j (values r1) None = Some lo /\
    In r2 df /\ grupo r2 = grupo r /\ nth j (values r2) None = Some hi /\
    lo <= m /\ m <= hi.
Proof.
  intros Himp Hi Hj Hi' Hj'.
  apply impute_ok in Himp. destruct Himp as [_ ->].
  rewrite imputed_rows, nth_error_map, Hi in Hi'. simpl in Hi'.
  inversion Hi'; subst r'; clear Hi'.
  unfold fill_row in Hj'. simpl in Hj'.
  rewrite mapi_nth_error, Hj in Hj'. simpl in Hj'.
  inversion Hj' as [Hm]; clear Hj'.
  destruct (median_between _ _ Hm) as (lo & hi & Hlo & Hhi & H1 & H2).
  unfold frame_column in Hlo, Hhi.
  apply in_map_iff in Hlo, Hhi.
  destruct Hlo as [r1 [E1 P1]], Hhi as [r2 [E2 P2]].
  unfold partition_of in P1, P2. apply filter_In in P1, P2.
  destruct P1 as [P1 G1], P2 as [P2 G2].
  apply String.eqb_eq in G1, G2.
  exists r1, r2, lo, hi. repeat split; assumption.
Qed.

Lemma filled_value_within_partition_range_witness :
  exists r1 r2 lo hi,
    In r1 gaps /\ grupo r1 = "A" /\ nth 0 (values r1) None = Some lo /\
    In r2 gaps /\ grupo r2 = "A" /\ nth 0 (values r2) None = Some hi /\
    lo <= 6 # 2 /\ 6 # 2 <= hi.
Proof.
  apply (filled_value_within_partition_range gaps
           [mkRow "a" "A" [Some 1; Some (10 # 2)];
            mkRow "b" "A" [Some (6 # 2); Some 4];
            mkRow "c" "B" [None; Some 9];
            mkRow "d" "A" [Some 5; Some 6]]
           1%nat 0%nat (mkRow "b" "A" [None; Some 4])
           (mkRow "b" "A" [Some (6 # 2); Some 4]) (6 # 2));
    reflexivity.
Defined.

(** *** The report holds the highest scores (lines 133-141) *)

Lemma sorted_app_cross {A : Type} (R : A -> A -> Prop) (l1 l2 : list A) :
  StronglySorted R (l1 ++ l2) ->
  forall p q, In p l1 -> In q l2 -> R p q.
Proof.
  induction l1 as [|x l1 IH]; simpl; intros H p q Hp Hq; [contradiction|].
  inversion H as [|? ? Hs Hall]; subst.
  destruct Hp as [->|Hp].
  - rewrite Forall_forall in Hall. apply Hall. apply in_or_app. now right.
  - now apply IH.
Qed.

(** X8.  The top-3 report is the head of the table arranged by descending
    score: it has three rows (all of them when the table has fewer), its
    rows are rows of the table, in descending order, and no row left out
    has a higher score than a row of the report. *)
Theorem top_students_are_the_highest
    (alumnos : list string) (first_principal_component : matrix) :
  exists rest,
    Permutation (combine alumnos (List.concat first_principal_component))
                (top_students alumnos first_principal_component ++ rest) /\
    descending (top_students alumnos first_principal_component ++ rest) /\
    List.length (top_students alumnos first_principal_component)
    = Nat.min 3 (List.length (combine alumnos (List.concat first_principal_component))) /\
    forall p q,
      In p (top_students alumnos first_principal_component) -> In q rest ->
      snd q <= snd p.
Proof.
  set (df := combine alumnos (List.concat first_principal_component)).
  exists (skipn 3 (sort_values_desc df)).
  unfold top_students. fold df.
  assert (Hd : descending (firstn 3 (sort_values_desc df)
                             ++ skipn 3 (sort_values_desc df))).
  { rewrite firstn_skipn. apply sort_values_desc_descending. }
  split; [|split; [|split]].
  - rewrite firstn_skipn. apply sort_values_desc_perm.
  - exact Hd.
  - rewrite length_firstn. f_equal. symmetry.
    apply Permutation_length. apply sort_values_desc_perm.
  - intros p q Hp Hq.
    exact (sorted_app_cross _ _ _ Hd p q Hp Hq).
Qed.

(** *** The three Reducer calls agree (lines 61-62, 97-98, 128-129) *)

Lemma all_finite_rows (X : list (list cell)) (res : PCA * matrix)
    (linalg_svd : matrix -> matrix * list Q * matrix) (n_components : option nat) :
  pca_fit_transform linalg_svd n_components X = Ok res ->
  exists M, all_finite X = Some M.
Proof.
  unfold pca_fit_transform. destruct X as [|[|c r] X']; try discriminate.
  destruct (all_finite ((c :: r) :: X')) as [M|]; [|discriminate].
  intros _. now exists M.
Qed.





(** *** What the script needs of its input (lines 53-129) *)

Lemma pca_rank_bound (linalg_svd : matrix -> matrix * list Q * matrix)
    (k : nat) (X : list (list cell)) (res : PCA * matrix) :
  pca_fit_transform linalg_svd (Some k) X = Ok res ->
  (k <= List.length X)%nat /\ (k <= List.length (hd [] X))%nat.
Proof.
  intro H. destruct (all_finite_rows _ _ _ _ H) as [M HM].
  destruct (pca_ok _ _ _ _ _ H HM) as [Hle _]. cbv zeta in Hle. lia.
Qed.

Lemma analyse_needs_two (np_sqrt : Q -> Q)
    (linalg_svd : matrix -> matrix * list Q * matrix)
    (df : list Row) (report : Report) :
  analyse np_sqrt linalg_svd df = Ok report ->
  exists r df', df = r :: df' /\ df' <> [] /\ (2 <= List.length (values r))%nat.
Proof.
  unfold analyse. intro H.
  destruct (scaler_fit_transform np_sqrt (map values df)) as [Y|e] eqn:EY;
    [|discriminate].
  simpl in H.
  destruct (pca_fit_transform linalg_svd None Y) as [full|e]; [|discriminate].
  simpl in H.
  destruct (pca_fit_transform linalg_svd (Some 2%nat) Y) as [two|e] eqn:E2;
    [|discriminate].
  apply pca_rank_bound in E2. destruct E2 as [Hn Hp].
  apply scaler_ok in EY. subst Y. rewrite length_map, length_map in Hn.
  destruct df as [|r df']; simpl in Hn; [lia|].
  exists r, df'. split; [reflexivity|]. split.
  - destruct df'; [simpl in Hn; lia | discriminate].
  - simpl in Hp. unfold mapi in Hp.
    rewrite length_map, length_combine, length_seq in Hp. lia.
Qed.

(** X10.  The script produces a report only for a table of at least two
    aggregated rows and at least two numeric columns: with fewer, the
    rank-2 call (or an earlier step) raises. *)
Theorem main_needs_two_rows_and_two_columns
    (np_sqrt : Q -> Q) (linalg_svd : matrix -> matrix * list Q * matrix)
    (dataframes : list DataFrame) (report : Report) :
  main np_sqrt linalg_svd dataframes = Ok report ->
  exists df r df',
    aggregate dataframes = Ok df /\
    df = r :: df' /\ df' <> [] /\ (2 <= List.length (values r))%nat.
Proof.
  unfold main. intro H.
  destruct (aggregate dataframes) as [df|e] eqn:E; [|discriminate].
  simpl in H.
  destruct (impute df) as [df1|e] eqn:Ei; [|discriminate]. simpl in H.
  apply impute_ok in Ei. destruct Ei as [_ ->].
  rewrite (imputed_complete df (aggregate_complete _ _ E)) in H.
  destruct (analyse_needs_two _ _ _ _ H) as (r & df' & E1 & E2 & E3).
  exists df, r, df'. tauto.
Qed.

Lemma main_needs_two_rows_and_two_columns_witness :
  exists df r df',
    aggregate [identical_file] = Ok df /\
    df = r :: df' /\ df' <> [] /\ (2 <= List.length (values r))%nat.
Proof.
  apply (main_needs_two_rows_and_two_columns sqrt_at_one zero_svd
           [identical_file]
           (mkReport [[1; 0]; [0; 1]] [Some 0; Some 0]
                     [None; None] [None; None] [None; None] [None; None]
                     [("Ana", 0); ("Luis", 0)])).
  reflexivity.
Defined.

(** *** The eigenvalues of the scree plot (lines 67, 85) *)

Lemma eigenvalues_nonincreasing (d : Q) (Sigma : list Q) :
  0 < d ->
  nonincreasing Sigma -> Forall (fun s => 0 <= s) Sigma ->
  nonincreasing (map (fun s => s * s / d) Sigma).
Proof.
  intros Hd Hs. unfold nonincreasing in *.
  induction Hs as [|a l Hs IH Hall]; intro Hn; simpl; [constructor|].
  inversion Hn as [|? ? Ha Hl]; subst.
  constructor; [now apply IH|].
  apply Forall_forall. intros y Hy. apply in_map_iff in Hy.
  destruct Hy as [b [<- Hb]].
  rewrite Forall_forall in Hall, Hl.
  apply Qdiv_le_compat; [exact Hd|]. apply square_mono; auto.
Qed.

Lemma firstn_sorted {A : Type} (R : A -> A -> Prop) (k : nat) (l : list A) :
  StronglySorted R l -> StronglySorted R (firstn k l).
Proof.
  intro H. revert k. induction H as [|x l Hs IH Hall]; intros [|k]; simpl;
    try constructor.
  - apply IH.
  - apply Forall_forall. intros y Hy. apply In_firstn in Hy.
    rewrite Forall_forall in Hall. now apply Hall.
Qed.

(** X11.  For a table of at least two records, the eigenvalues that the
    script logs and plots are all defined, not negative, and in
    non-increasing order (given the order in which the decomposition
    returns the singular values), at every rank. *)
Theorem eigenvalues_descending
    (linalg_svd : matrix -> matrix * list Q * matrix)
    (n_components : option nat) (X : list (list cell)) (M : matrix)
    (pca : PCA) (T : matrix) :
  pca_fit_transform linalg_svd n_components X = Ok (pca, T) ->
  all_finite X = Some M ->
  svd_order (linalg_svd (center M)) ->
  (2 <= List.length X)%nat ->
  exists ev,
    explained_variance_ pca = map Some ev /\
    nonincreasing ev /\
    Forall (fun e => 0 <= e) ev.
Proof.
  intros H HM Horder Hn.
  destruct (pca_ok _ _ _ _ _ H HM) as [_ Hres]. cbv zeta in Hres.
  set (k := match n_components with
            | None => Nat.min (List.length X) (List.length (hd [] X))
            | Some k => k
            end) in *.
  destruct (linalg_svd (center M)) as [[U Sigma] Vt].
  destruct Horder as [Hdesc Hnn].
  set (d := inject_Z (Z.of_nat (List.length X)) - 1) in *.
  assert (Hd : 0 < d).
  { unfold d. assert (E : 2 <= inject_Z (Z.of_nat (List.length X))).
    { change 2 with (inject_Z 2). rewrite <- Zle_Qle. lia. }
    lra. }
  assert (Hev : map (fun s => fdiv (s * s) d) Sigma
                = map Some (map (fun s => s * s / d) Sigma)).
  { rewrite map_map. apply map_ext. intro s. apply fdiv_nonzero. lra. }
  unfold pca_postprocess in Hres. fold d in Hres. rewrite Hev in Hres.
  inversion Hres; subst pca T; clear Hres. simpl.
  exists (firstn k (map (fun s => s * s / d) Sigma)).
  split; [now rewrite firstn_map|]. split.
  - apply firstn_sorted. now apply eigenvalues_nonincreasing.
  - apply Forall_forall. intros e He. apply In_firstn in He.
    apply in_map_iff in He. destruct He as [s [<- _]].
    apply Qdiv_nonneg; [|exact Hd]. destruct (Qlt_le_dec s 0); nra.
Qed.

Lemma eigenvalues_descending_witness :
  exists ev,
    explained_variance_ square_pca = map Some ev /\
    nonincreasing ev /\
    Forall (fun e => 0 <= e) ev.
Proof.
  apply (eigenvalues_descending square_svd None square_X square_M
           square_pca square_T).
  - reflexivity.
  - reflexivity.
  - simpl. split; repeat constructor; discriminate.
  - simpl. lia.
Defined.

(** *** Records without an identifier (line 37) *)

Lemma inb_In (l : list string) (x : string) : inb l x = true <-> In x l.
Proof.
  unfold inb. rewrite existsb_exists. split.
  - intros [y [Hy E]]. apply String.eqb_eq in E. now subst.
  - intro H. exists x. split; [exact H | apply String.eqb_refl].
Qed.

Lemma filter_flat_map_swap {A B : Type} (p : B -> bool) (f : A -> list B) (l : list A) :
  filter p (flat_map f l) = flat_map (fun a => filter p (f a)) l.
Proof.
  induction l as [|a l IH]; simpl; [reflexivity|].
  now rewrite filter_app, IH.
Qed.

Lemma flat_map_skip_empty {A B : Type} (q : A -> bool) (f : A -> list B) (l : list A) :
  (forall a, In a l -> q a = false -> f a = []) ->
  flat_map f l = flat_map f (filter q l).
Proof.
  induction l as [|a l IH]; simpl; intro H; [reflexivity|].
  rewrite IH by (intros; apply H; auto).
  destruct (q a) eqn:E; simpl; [reflexivity|].
  now rewrite (H a (or_introl eq_refl) E).
Qed.

Lemma filter_through {A : Type} (p q : A -> bool) (l : list A) :
  (forall x, In x l -> p x = true -> q x = true) ->
  filter p l = filter p (filter q l).
Proof.
  induction l as [|x l IH]; simpl; intro H; [reflexivity|].
  rewrite IH by (intros; apply H; auto).
  destruct (p x) eqn:Ep.
  - rewrite (H x (or_introl eq_refl) Ep). simpl. now rewrite Ep.
  - destruct (q x); simpl; [now rewrite Ep | reflexivity].
Qed.

Lemma categories_filter_subset (keys keys' : list (option string)) :
  (forall a, In (Some a) keys' -> In (Some a) keys) ->
  filter (inb (categories keys')) (categories keys) = categories keys'.
Proof.
  intro H.
  apply (sorted_nodup_unique String.leb String.leb_antisym).
  - apply filter_sorted. apply categories_sorted.
  - apply NoDup_filter. apply categories_NoDup.
  - apply categories_sorted.
  - apply categories_NoDup.
  - intro a. rewrite filter_In, inb_In, !categories_In.
    split; [tauto | auto].
Qed.

Lemma group_records_drop_missing (df : DataFrame) (a g : string) :
  group_records (drop_missing_keys df) a g = group_records df a g.
Proof.
  unfold group_records, drop_missing_keys. simpl.
  symmetry. apply filter_through.
  intros r _ H. unfold in_group in H. unfold has_keys.
  destruct (raw_alumno r); [|discriminate].
  destruct (raw_grupo r); [reflexivity | discriminate].
Qed.

Lemma mean_row_drop_missing (df : DataFrame) (a g : string) :
  mean_row (sign_correct (drop_missing_keys df)) a g
  = mean_row (sign_correct df) a g.
Proof.
  unfold mean_row. simpl. f_equal. apply map_ext. intro j.
  now rewrite !group_records_sign_correct, group_records_drop_missing.
Qed.

Lemma complete_row_has_records (df : DataFrame) (a g : string) :
  (0 < List.length (numeric_columns df))%nat ->
  complete (mean_row (sign_correct df) a g) = true ->
  group_records df a g <> [].
Proof.
  intros Hn Hc E. unfold complete, mean_row in Hc. simpl in Hc.
  rewrite forallb_forall in Hc.
  assert (Hd : is_defined
                 (nanmean (raw_column 0 (group_records (sign_correct df) a g)))
               = true).
  { apply Hc. apply in_map_iff. exists 0%nat. split; [reflexivity|].
    apply in_seq. lia. }
  rewrite group_records_sign_correct, E in Hd. discriminate.
Qed.

Lemma sign_correct_alumnos (df : DataFrame) :
  map raw_alumno (records (sign_correct df)) = map raw_alumno (records df).
Proof. unfold sign_correct. simpl. now rewrite map_map. Qed.

Lemma sign_correct_grupos (df : DataFrame) :
  map raw_grupo (records (sign_correct df)) = map raw_grupo (records df).
Proof. unfold sign_correct. simpl. now rewrite map_map. Qed.

Lemma drop_missing_subset (f : RawRecord -> option string) (df : DataFrame) (a : string) :
  In (Some a) (map f (records (drop_missing_keys df))) ->
  In (Some a) (map f (records df)).
Proof.
  unfold drop_missing_keys. simpl. rewrite !in_map_iff.
  intros [r [E Hr]]. apply filter_In in Hr. exists r. tauto.
Qed.

(** X12.  A record that misses its alumno or its grupo takes no part in
    the aggregation: with at least one numeric column, the table after
    the row drop is the one the records with both identifiers give. *)
Theorem records_without_key_are_ignored (df : DataFrame) :
  (0 < List.length (numeric_columns df))%nat ->
  cleaned df = cleaned (drop_missing_keys df).
Proof.
  intro Hn. unfold cleaned, dropna, groupby_mean.
  rewrite !sign_correct_alumnos, !sign_correct_grupos.
  set (As := categories (map raw_alumno (records df))).
  set (Gs := categories (map raw_grupo (records df))).
  set (As' := categories (map raw_alumno (records (drop_missing_keys df)))).
  set (Gs' := categories (map raw_grupo (records (drop_missing_keys df)))).
  assert (HA : filter (inb As') As = As').
  { apply categories_filter_subset. apply drop_missing_subset. }
  assert (HG : filter (inb Gs') Gs = Gs').
  { apply categories_filter_subset. apply drop_missing_subset. }
  assert (Hkeys : forall a g,
             complete (mean_row (sign_correct df) a g) = true ->
             inb As' a = true /\ inb Gs' g = true).
  { intros a g Hc. pose proof (complete_row_has_records df a g Hn Hc) as Hne.
    rewrite <- group_records_drop_missing in Hne.
    apply group_records_keys in Hne. destruct Hne as [H1 H2].
    unfold As', Gs'. now rewrite !inb_In, !categories_In. }
  rewrite !filter_flat_map_swap.
  rewrite (flat_map_skip_empty (inb As') _ As).
  - rewrite HA. apply flat_map_ext. intro a.
    rewrite !filter_map_swap.
    rewrite (filter_ext
               (fun g => complete (mean_row (sign_correct (drop_missing_keys df)) a g))
               (fun g => complete (mean_row (sign_correct df) a g)))
      by (intro g; now rewrite mean_row_drop_missing).
    rewrite (map_ext (mean_row (sign_correct (drop_missing_keys df)) a)
                     (mean_row (sign_correct df) a))
      by (intro g; apply mean_row_drop_missing).
    f_equal.
    rewrite (filter_through _ (inb Gs') Gs) by (intros g _ Hc; now apply (Hkeys a g)).
    now rewrite HG.
  - intros a _ Ha. rewrite filter_map_swap.
    assert (E : forall l,
               filter (fun g => complete (mean_row (sign_correct df) a g)) l = []).
    { intro l. induction l as [|g l IH]; simpl; [reflexivity|].
      destruct (complete (mean_row (sign_correct df) a g)) eqn:Hc; [|exact IH].
      destruct (Hkeys a g Hc) as [Ha' _]. congruence. }
    now rewrite E.
Qed.

Lemma records_without_key_are_ignored_witness :
  cleaned missing_keys_file = cleaned (drop_missing_keys missing_keys_file).
Proof.
  apply (records_without_key_are_ignored missing_keys_file). simpl. lia.
Defined.

(** *** The order of the files (lines 18-21) *)

Lemma Permutation_filter {A : Type} (p : A -> bool) (l l' : list A) :
  Permutation l l' -> Permutation (filter p l) (filter p l').
Proof.
  induction 1 as [|x l l' _ IH|x y l|l l' l'' _ IH1 _ IH2]; simpl.
  - constructor.
  - destruct (p x); [now constructor | exact IH].
  - destruct (p x), (p y); try reflexivity. apply perm_swap.
  - now transitivity (filter p l').
Qed.

Lemma sumQ_perm (l l' : list Q) : Permutation l l' -> sumQ l == sumQ l'.
Proof.
  induction 1 as [|x l l' _ IH|x y l|l l' l'' _ IH1 _ IH2]; simpl.
  - reflexivity.
  - now rewrite IH.
  - ring.
  - now rewrite IH1.
Qed.

Lemma nanmean_perm (l l' : list cell) :
  Permutation l l' -> cell_equiv (nanmean l) (nanmean l').
Proof.
  intro H.
  assert (Hv : Permutation (valid l) (valid l')).
  { unfold valid. now apply Permutation_flat_map. }
  unfold nanmean.
  destruct (valid l) as [|x v] eqn:E1; destruct (valid l') as [|y w] eqn:E2.
  - exact I.
  - apply Permutation_nil in Hv. discriminate.
  - apply Permutation_sym, Permutation_nil in Hv. discriminate.
  - simpl. unfold count.
    rewrite (Permutation_length Hv). now rewrite (sumQ_perm _ _ Hv).
Qed.

Lemma cell_equiv_defined (c d : cell) :
  cell_equiv c d -> is_defined c = is_defined d.
Proof. destruct c, d; simpl; tauto. Qed.

Lemma row_equiv_complete (r s : Row) :
  row_equiv r s -> complete r = complete s.
Proof.
  intros (_ & _ & H). unfold complete.
  induction H as [|c d l l' Hc _ IH]; simpl; [reflexivity|].
  now rewrite (cell_equiv_defined c d Hc), IH.
Qed.

Lemma dropna_equiv (l l' : list Row) :
  Forall2 row_equiv l l' -> Forall2 row_equiv (dropna l) (dropna l').
Proof.
  unfold dropna. induction 1 as [|r s l l' Hr _ IH]; simpl; [constructor|].
  rewrite <- (row_equiv_complete r s Hr).
  destruct (complete r); [now constructor | exact IH].
Qed.

Lemma Forall2_map_same {A B : Type} (R : B -> B -> Prop) (f g : A -> B) (l : list A) :
  (forall x, R (f x) (g x)) -> Forall2 R (map f l) (map g l).
Proof.
  intro H. induction l as [|x l IH]; simpl; constructor; auto.
Qed.

Lemma Forall2_flat_map_same {A B : Type} (R : B -> B -> Prop)
    (f g : A -> list B) (l : list A) :
  (forall x, Forall2 R (f x) (g x)) -> Forall2 R (flat_map f l) (flat_map g l).
Proof.
  intro H. induction l as [|x l IH]; simpl; [constructor|].
  now apply Forall2_app.
Qed.

Lemma mean_row_perm (d1 d2 : DataFrame) (a g : string) :
  Permutation (records d1) (records d2) ->
  List.length (numeric_columns d1) = List.length (numeric_columns d2) ->
  row_equiv (mean_row d1 a g) (mean_row d2 a g).
Proof.
  intros Hp Hn. unfold row_equiv, mean_row. simpl.
  split; [reflexivity|]. split; [reflexivity|].
  rewrite Hn. apply Forall2_map_same. intro j.
  apply nanmean_perm. unfold raw_column, group_records.
  apply Permutation_map. now apply Permutation_filter.
Qed.

Lemma categories_perm (f : RawRecord -> option string) (l l' : list RawRecord) :
  Permutation l l' -> categories (map f l) = categories (map f l').
Proof.
  intro H. apply categories_same_keys. intro a.
  split; apply Permutation_in; [|apply Permutation_sym];
    now apply Permutation_map.
Qed.

Lemma cleaned_perm (d1 d2 : DataFrame) :
  Permutation (records d1) (records d2) ->
  List.length (numeric_columns d1) = List.length (numeric_columns d2) ->
  Forall2 row_equiv (cleaned d1) (cleaned d2).
Proof.
  intros Hp Hn. unfold cleaned. apply dropna_equiv. unfold groupby_mean.
  assert (Hs : Permutation (records (sign_correct d1)) (records (sign_correct d2))).
  { unfold sign_correct. simpl. now apply Permutation_map. }
  rewrite (categories_perm raw_alumno _ _ Hs), (categories_perm raw_grupo _ _ Hs).
  apply Forall2_flat_map_same. intro a.
  apply Forall2_map_same. intro g.
  apply mean_row_perm; [exact Hs | exact Hn].
Qed.

Lemma add_column_known (l acc : list string) :
  (forall c, In c l -> existsb (String.eqb c) acc = true) ->
  fold_left add_column l acc = acc.
Proof.
  induction l as [|c l IH]; intro H; [reflexivity|]. simpl.
  unfold add_column at 2. rewrite (H c) by now left.
  apply IH. intros c' Hc'. apply H. now right.
Qed.

Lemma add_column_grows (l acc : list string) (c : string) :
  existsb (String.eqb c) acc = true ->
  existsb (String.eqb c) (fold_left add_column l acc) = true.
Proof.
  revert acc. induction l as [|x l IH]; intros acc H; [exact H|]. simpl.
  apply IH. unfold add_column. destruct (existsb (String.eqb x) acc); [exact H|].
  rewrite existsb_app, H. reflexivity.
Qed.

Lemma add_column_covers (l acc : list string) (c : string) :
  In c l -> existsb (String.eqb c) (fold_left add_column l acc) = true.
Proof.
  revert acc. induction l as [|x l IH]; intros acc H; [destruct H|].
  destruct H as [<-|H]; simpl.
  - apply add_column_grows. unfold add_column.
    destruct (existsb (String.eqb x) acc) eqn:E; [exact E|].
    rewrite existsb_app. simpl. rewrite String.eqb_refl.
    now rewrite orb_true_r.
  - now apply IH.
Qed.

(** Files with one header give the combined table that header (without
    its repeated names), whatever their number and order. *)
Lemma union_columns_one_header (columns : list string) (d : DataFrame)
    (ds : list DataFrame) :
  Forall (fun d => numeric_columns d = columns) (d :: ds) ->
  union_columns (d :: ds) = fold_left add_column columns [].
Proof.
  intro H. inversion H as [|? ? Hd Hds]; subst. unfold union_columns. simpl.
  rewrite fold_left_app. apply add_column_known.
  intros c Hc. apply in_flat_map in Hc. destruct Hc as [d' [Hd' Hc]].
  rewrite Forall_forall in Hds. rewrite (Hds d' Hd') in Hc.
  now apply add_column_covers.
Qed.

Lemma int64_column_perm (j : nat) (rs1 rs2 : list RawRecord) :
  Permutation rs1 rs2 -> int64_column j rs1 = int64_column j rs2.
Proof.
  unfold int64_column.
  induction 1 as [|r l1 l2 _ IH|r1 r2 l|l1 l2 l3 _ IH1 _ IH2]; simpl.
  - reflexivity.
  - now rewrite IH.
  - now rewrite !andb_assoc, (andb_comm (is_int64 _)).
  - now rewrite IH1.
Qed.

Lemma common_dtype_perm (rs1 rs2 : list RawRecord) :
  Permutation rs1 rs2 -> Permutation (common_dtype rs1) (common_dtype rs2).
Proof.
  intro Hp. unfold common_dtype.
  rewrite (map_ext
             (fun r => mkRaw (raw_alumno r) (raw_grupo r)
                         (mapi (fun j c => if int64_column j rs1 then c
                                           else astype_float c) (raw_values r)))
             (fun r => mkRaw (raw_alumno r) (raw_grupo r)
                         (mapi (fun j c => if int64_column j rs2 then c
                                           else astype_float c) (raw_values r)))).
  - now apply Permutation_map.
  - intro r. f_equal. unfold mapi. apply map_ext. intros [j c]. simpl.
    now rewrite (int64_column_perm j rs1 rs2 Hp).
Qed.

(** X13.  The order in which the files are read does not matter: when the
    files have one header, any two orders give tables after the row drop
    with the same rows in the same order, with the same identifiers and,
    in exact arithmetic, equal values. *)
Theorem file_order_is_irrelevant
    (dataframes1 dataframes2 : list DataFrame) (t1 t2 : list Row)
    (columns : list string) :
  Permutation dataframes1 dataframes2 ->
  Forall (fun d => numeric_columns d = columns) dataframes1 ->
  aggregate dataframes1 = Ok t1 ->
  aggregate dataframes2 = Ok t2 ->
  Forall2 row_equiv t1 t2.
Proof.
  intros Hp Hn H1 H2.
  assert (Hn2 : Forall (fun d => numeric_columns d = columns) dataframes2).
  { rewrite Forall_forall in *. intros d Hd. apply Hn.
    now apply (Permutation_in _ (Permutation_sym Hp)). }
  unfold aggregate in H1, H2.
  destruct dataframes1 as [|d1 ds1]; [discriminate|].
  destruct dataframes2 as [|d2 ds2]; [discriminate|].
  unfold pd_concat in H1, H2. cbv beta iota delta [bind] in H1, H2.
  rewrite (union_columns_one_header columns d1 ds1 Hn) in H1.
  rewrite (union_columns_one_header columns d2 ds2 Hn2) in H2.
  inversion H1; subst t1. inversion H2; subst t2.
  apply cleaned_perm; cbn [records numeric_columns]; [|reflexivity].
  apply common_dtype_perm.
  exact (Permutation_flat_map
           (fun df => map (reindex (fold_left add_column columns []) df) (records df))
           Hp).
Qed.

Lemma file_order_is_irrelevant_witness :
  Forall2 row_equiv [mkRow "Ana" "A" [Some (12 # 2)]]
                    [mkRow "Ana" "A" [Some (12 # 2)]].
Proof.
  apply (file_order_is_irrelevant [ana_file_1; ana_file_2]
           [ana_file_2; ana_file_1] _ _ (numeric_columns ana_file_1)).
  - apply perm_swap.
  - repeat constructor.
  - reflexivity.
  - reflexivity.
Defined.

(** *** When the script runs through (lines 18-145) *)

Lemma defined_cells (l : list cell) :
  Forall (fun c => is_defined c = true) l -> exists xs, l = map Some xs.
Proof.
  induction 1 as [|c l Hc _ [xs ->]]; [now exists []|].
  destruct c as [q|]; [|discriminate]. now exists (q :: xs).
Qed.

Lemma standardize_defined (np_sqrt : Q -> Q) (col : list cell) (x : Q) :
  (forall v, ~ v == 0 -> ~ np_sqrt v == 0) ->
  col <> [] -> Forall (fun c => is_defined c = true) col ->
  is_defined (standardize_cell (Some x) (nanmean col)
                               (scale_of np_sqrt (nanvar col))) = true.
Proof.
  intros Hsqrt Hne Hall. destruct (defined_cells col Hall) as [xs ->].
  assert (Hxs : xs <> []) by (destruct xs; [contradiction | discriminate]).
  unfold nanvar. rewrite (nanmean_somes xs Hxs).
  rewrite map_map. simpl.
  rewrite <- (map_map (fun x => (x - sumQ xs / count xs) * (x - sumQ xs / count xs)) Some).
  rewrite nanmean_somes by (destruct xs; [congruence | discriminate]).
  unfold scale_of, standardize_cell.
  match goal with |- context [Qeq_bool ?v 0] => destruct (Qeq_bool v 0) eqn:E end.
  - reflexivity.
  - apply Qeq_bool_neq in E. now rewrite fdiv_nonzero by (now apply Hsqrt).
Qed.

Lemma all_finite_defined (Y : list (list cell)) :
  Forall (Forall (fun c => is_defined c = true)) Y -> exists M, all_finite Y = Some M.
Proof.
  induction 1 as [|r Y Hr _ [M HM]]; [now exists []|].
  assert (Hrow : exists r', finite_row r = Some r').
  { clear -Hr. induction Hr as [|c r Hc _ [r' Hr']]; [now exists []|].
    destruct c as [q|]; [|discriminate]. simpl. rewrite Hr'. now eexists. }
  destruct Hrow as [r' Hr']. simpl. rewrite Hr', HM. now eexists.
Qed.

Lemma pca_succeeds (linalg_svd : matrix -> matrix * list Q * matrix)
    (k : nat) (c : cell) (r : list cell) (Y : list (list cell)) (M : matrix) :
  all_finite ((c :: r) :: Y) = Some M ->
  (k <= Nat.min (S (List.length Y)) (S (List.length r)))%nat ->
  exists res, pca_fit_transform linalg_svd (Some k) ((c :: r) :: Y) = Ok res.
Proof.
  intros HM Hk. unfold pca_fit_transform. rewrite HM.
  rewrite (all_finite_length _ _ HM). simpl List.length.
  apply Nat.leb_le in Hk. rewrite Hk. now eexists.
Qed.

Lemma pca_full_succeeds (linalg_svd : matrix -> matrix * list Q * matrix)
    (c : cell) (r : list cell) (Y : list (list cell)) (M : matrix) :
  all_finite ((c :: r) :: Y) = Some M ->
  exists res, pca_fit_transform linalg_svd None ((c :: r) :: Y) = Ok res.
Proof.
  intros HM. unfold pca_fit_transform. rewrite HM.
  rewrite (all_finite_length _ _ HM). simpl List.length.
  rewrite Nat.leb_refl. now eexists.
Qed.

Lemma standardized_table_defined (np_sqrt : Q -> Q) (X : list (list cell)) (p : nat) :
  (forall v, ~ v == 0 -> ~ np_sqrt v == 0) ->
  Forall (fun r => List.length r = p /\ Forall (fun c => is_defined c = true) r) X ->
  Forall (Forall (fun c => is_defined c = true))
         (map (fun row =>
                 mapi (fun j x =>
                         standardize_cell x (nanmean (column j X))
                                          (scale_of np_sqrt (nanvar (column j X))))
                      row) X).
Proof.
  intros Hsqrt HX. apply Forall_forall. intros row' Hrow'.
  apply in_map_iff in Hrow'. destruct Hrow' as [row [<- Hrow]].
  apply Forall_forall. intros c Hc. apply In_nth_error in Hc.
  destruct Hc as [j Hj]. rewrite mapi_nth_error in Hj.
  destruct (nth_error row j) as [x|] eqn:Ex; [|discriminate].
  simpl in Hj. inversion Hj; subst c; clear Hj.
  rewrite Forall_forall in HX.
  destruct (HX row Hrow) as [Hlen Hdef].
  assert (Hjp : (j < p)%nat).
  { rewrite <- Hlen. apply nth_error_Some. congruence. }
  rewrite Forall_forall in Hdef.
  pose proof (Hdef x (nth_error_In _ _ Ex)) as Hx.
  destruct x as [x|]; [|discriminate].
  apply standardize_defined; [exact Hsqrt | |].
  - unfold column. destruct X; [contradiction | discriminate].
  - apply Forall_forall. intros c Hc. unfold column in Hc.
    apply in_map_iff in Hc. destruct Hc as [r [<- Hr]].
    destruct (HX r Hr) as [Hl Hd]. rewrite Forall_forall in Hd.
    apply Hd. apply nth_In. unfold cell in *. lia.
Qed.

Lemma analyse_succeeds (np_sqrt : Q -> Q)
    (linalg_svd : matrix -> matrix * list Q * matrix)
    (df : list Row) (c : cell) (r : list cell) (Y : list (list cell)) (M : matrix) :
  scaler_fit_transform np_sqrt (map values df) = Ok ((c :: r) :: Y) ->
  all_finite ((c :: r) :: Y) = Some M ->
  (2 <= Nat.min (S (List.length Y)) (S (List.length r)))%nat ->
  exists report, analyse np_sqrt linalg_svd df = Ok report.
Proof.
  intros HY HM Hk. unfold analyse. rewrite HY.
  cbv beta iota delta [bind].
  destruct (pca_full_succeeds linalg_svd c r Y M HM) as [full ->].
  destruct (pca_succeeds linalg_svd 2 c r Y M HM Hk) as [two ->].
  destruct (pca_succeeds linalg_svd 1 c r Y M HM) as [one ->]; [lia|].
  now eexists.
Qed.

(** X14.  For files whose identifier columns hold text: with a square
    root that is not zero on a non-zero variance, the script runs through
    and produces its report whenever the combined table has at least two
    numeric columns and gives at least two aggregated rows (the converse
    of X10). *)
Theorem main_succeeds_on_two_rows_and_two_columns
    (np_sqrt : Q -> Q) (linalg_svd : matrix -> matrix * list Q * matrix)
    (dataframes : list DataFrame) (combined : DataFrame) (df : list Row) :
  (forall v, ~ v == 0 -> ~ np_sqrt v == 0) ->
  pd_concat dataframes = Ok combined ->
  aggregate dataframes = Ok df ->
  (2 <= List.length df)%nat ->
  (2 <= List.length (numeric_columns combined))%nat ->
  exists report, main np_sqrt linalg_svd dataframes = Ok report.
Proof.
  intros Hsqrt Hcat Hagg Hrows Hcols.
  assert (Hdf : df = cleaned combined).
  { unfold aggregate in Hagg. rewrite Hcat in Hagg.
    cbv beta iota delta [bind] in Hagg. now inversion Hagg. }
  pose proof (cleaned_rectangular combined) as Hrect.
  rewrite <- Hdf in Hrect.
  remember (List.length (numeric_columns combined)) as p eqn:Hp.
  assert (Hcells : has_cells df = true).
  { destruct df as [|r0 df0]; [simpl in Hrows; lia|].
    inversion Hrect as [|? ? [Hr0 _] _]; subst. simpl.
    destruct (values r0); [simpl in Hr0; lia | reflexivity]. }
  unfold main. rewrite Hagg. cbv beta iota delta [bind].
  rewrite (impute_has_cells _ Hcells).
  rewrite (imputed_complete _ (aggregate_complete _ _ Hagg)).
  remember (map values df) as X eqn:HX.
  assert (HXr : Forall (fun r => List.length r = p /\
                                 Forall (fun c => is_defined c = true) r) X).
  { apply Forall_forall. intros r Hr. rewrite HX in Hr. apply in_map_iff in Hr.
    destruct Hr as [row [<- Hrow]]. rewrite Forall_forall in Hrect.
    now apply Hrect. }
  pose proof (standardized_table_defined np_sqrt X p Hsqrt HXr) as Hdef.
  remember (map (fun row =>
                   mapi (fun j x =>
                           standardize_cell x (nanmean (column j X))
                                            (scale_of np_sqrt (nanvar (column j X))))
                        row) X) as Y eqn:HY.
  assert (HlenY : List.length Y = List.length df).
  { rewrite HY, HX. now rewrite !length_map. }
  assert (Hscaler : scaler_fit_transform np_sqrt X = Ok Y).
  { unfold scaler_fit_transform. rewrite <- HY.
    destruct X as [|[|c0 r0] X']; try reflexivity.
    - destruct df; [simpl in Hrows; lia | discriminate].
    - inversion HXr as [|? ? [Hl _] _]; subst. simpl in Hl. lia. }
  destruct (all_finite_defined Y Hdef) as [M HM].
  destruct Y as [|row Y']; [simpl in HlenY; lia|].
  assert (Hrow : List.length row = p).
  { destruct X as [|x0 X']; [discriminate|].
    simpl in HY. inversion HY; subst row.
    unfold mapi. rewrite length_map, length_combine, length_seq.
    inversion HXr as [|? ? [Hl _] _]; subst. unfold cell in *. lia. }
  destruct row as [|c r]; [simpl in Hrow; lia|].
  rewrite HX in Hscaler.
  apply (analyse_succeeds np_sqrt linalg_svd df c r Y' M Hscaler HM).
  simpl in HlenY, Hrow. lia.
Qed.

Lemma main_succeeds_on_two_rows_and_two_columns_witness :
  exists report,
    main sqrt_at_one square_svd [attempts_1; attempts_2] = Ok report.
Proof.
  apply (main_succeeds_on_two_rows_and_two_columns sqrt_at_one square_svd
           [attempts_1; attempts_2] attempts_combined attempts_table).
  - intros v Hv. exact Hv.
  - reflexivity.
  - reflexivity.
  - simpl. lia.
  - simpl. lia.
Defined.

(** *** The aggregated value lies among the pair's values (line 37) *)

Lemma list_bounds (v : list Q) :
  v <> [] ->
  exists lo hi, In lo v /\ In hi v /\ forall x, In x v -> lo <= x /\ x <= hi.
Proof.
  induction v as [|y v IH]; [congruence|]. intros _.
  destruct v as [|z v].
  - exists y, y. simpl. repeat split; try tauto;
      destruct H as [<-|[]]; apply Qle_refl.
  - destruct IH as (lo & hi & Hlo & Hhi & Hb); [discriminate|].
    exists (if Qle_bool y lo then y else lo), (if Qle_bool hi y then y else hi).
    split; [destruct (Qle_bool y lo); [now left | now right]|].
    split; [destruct (Qle_bool hi y); [now left | now right]|].
    intros x [<-|Hx].
    + split.
      * destruct (Qle_bool y lo) eqn:E; [apply Qle_refl|].
        destruct (Qlt_le_dec lo y) as [H|H]; [now apply Qlt_le_weak|].
        apply Qle_bool_iff in H. congruence.
      * destruct (Qle_bool hi y) eqn:E; [apply Qle_refl|].
        destruct (Qlt_le_dec y hi) as [H|H]; [now apply Qlt_le_weak|].
        apply Qle_bool_iff in H. congruence.
    + destruct (Hb x Hx) as [H1 H2]. split.
      * destruct (Qle_bool y lo) eqn:E; [|exact H1].
        apply Qle_bool_iff in E. now apply Qle_trans with lo.
      * destruct (Qle_bool hi y) eqn:E; [|exact H2].
        apply Qle_bool_iff in E. now apply Qle_trans with hi.
Qed.

Lemma sumQ_bounds (lo hi : Q) (v : list Q) :
  (forall x, In x v -> lo <= x /\ x <= hi) ->
  count v * lo <= sumQ v /\ sumQ v <= count v * hi.
Proof.
  induction v as [|y v IH]; intro H.
  - change (count (@nil Q)) with 0. simpl. split; lra.
  - destruct IH as [I1 I2]; [intros; apply H; now right|].
    destruct (H y (or_introl eq_refl)) as [H1 H2].
    change (sumQ (y :: v)) with (y + sumQ v). rewrite count_cons. split; lra.
Qed.

Lemma nanmean_between (l : list cell) (m : Q) :
  nanmean l = Some m ->
  exists lo hi, In (Some lo) l /\ In (Some hi) l /\ lo <= m /\ m <= hi.
Proof.
  intro H. apply nanmean_some in H. destruct H as [Hne ->].
  destruct (list_bounds _ Hne) as (lo & hi & Hlo & Hhi & Hb).
  destruct (sumQ_bounds lo hi _ Hb) as [B1 B2].
  pose proof (count_pos_nonempty _ Hne) as Hc.
  exists lo, hi. rewrite <- !valid_In. repeat split; try assumption.
  - apply Qle_shift_div_l; [exact Hc | lra].
  - apply Qle_shift_div_r; [exact Hc | lra].
Qed.

Lemma lookup_found (df : DataFrame) (a g : string) (r : Row) :
  lookup (groupby_mean df) a g = Some r -> r = mean_row df a g.
Proof.
  unfold lookup. intro H. apply find_some in H. destruct H as [Hin Hk].
  apply andb_true_iff in Hk. destruct Hk as [Ha Hg].
  apply String.eqb_eq in Ha, Hg.
  unfold groupby_mean in Hin. apply in_flat_map in Hin.
  destruct Hin as [a' [_ Hin]]. apply in_map_iff in Hin.
  destruct Hin as [g' [<- _]]. simpl in Ha, Hg. now subst.
Qed.

(** X15.  In exact arithmetic, a defined aggregated value lies between
    two sign-corrected values (as the float64 they are cast to) of records
    of the same (alumno, grupo) pair in that column.  The float64 sum of
    three or more values can round past such a bound by one unit in the
    last place. *)
Theorem aggregated_value_within_pair_range
    (df : DataFrame) (a g : string) (j : nat) (m : Q) :
  aggregated_value df a g j = Some m ->
  exists r1 r2 lo hi,
    In r1 (group_records df a g) /\
    as_float (np_abs (nth j (raw_values r1) NaN)) = Some lo /\
    In r2 (group_records df a g) /\
    as_float (np_abs (nth j (raw_values r2) NaN)) = Some hi /\
    lo <= m /\ m <= hi.
Proof.
  unfold aggregated_value. intro H.
  destruct (lookup (groupby_mean (sign_correct df)) a g) as [r|] eqn:E;
    [|discriminate].
  apply lookup_found in E. subst r. unfold mean_row in H. simpl in H.
  set (f := fun j => nanmean (raw_column j (group_records (sign_correct df) a g))) in *.
  assert (Hj : (j < List.length (numeric_columns df))%nat).
  { destruct (Nat.lt_ge_cases j (List.length (numeric_columns df))) as [L|L];
      [exact L|].
    rewrite nth_overflow in H by (now rewrite length_map, length_seq).
    discriminate. }
  rewrite (nth_indep _ None (f 0%nat)) in H by (now rewrite length_map, length_seq).
  rewrite (map_nth f), seq_nth in H by exact Hj. simpl in H. unfold f in H.
  rewrite group_records_sign_correct, raw_column_abs in H.
  destruct (nanmean_between _ _ H) as (lo & hi & Hlo & Hhi & B1 & B2).
  apply in_map_iff in Hlo, Hhi.
  destruct Hlo as [r1 [E1 I1]], Hhi as [r2 [E2 I2]].
  exists r1, r2, lo, hi. repeat split; assumption.
Qed.

Lemma aggregated_value_within_pair_range_witness :
  exists r1 r2 lo hi,
    In r1 (group_records ana_file_both "Ana" "A") /\
    as_float (np_abs (nth 0 (raw_values r1) NaN)) = Some lo /\
    In r2 (group_records ana_file_both "Ana" "A") /\
    as_float (np_abs (nth 0 (raw_values r2) NaN)) = Some hi /\
    lo <= 12 # 2 /\ 12 # 2 <= hi.
Proof.
  apply (aggregated_value_within_pair_range ana_file_both "Ana" "A" 0%nat (12 # 2)).
  reflexivity.
Defined.
